(** * On-device inference pipeline of the crop-disease detector

    A shallow embedding of the label mapper (utils/diseaseMapping.ts), the
    coverage script (scripts/validateMapping.ts), the image normaliser
    (services/imageToTensor.ts), the inference engine
    (services/predictImage.ts), the model validator (utils/modelUtils.ts) and
    the model loader (hooks/useTfModel.ts), followed by the properties the
    specification states about them. *)

From Stdlib Require Import String Ascii List ZArith QArith Qround Qabs Lia Bool.
From stdpp Require Import gmap strings list pretty sorting.

Local Open Scope string_scope.
Local Open Scope list_scope.
Local Open Scope nat_scope.

(** ** JavaScript string helpers

    Strings are byte strings; the labels, crop names and paths the program
    handles are ASCII. *)

Module JsString.

(** [c] lower-cased, for the ASCII letters. *)
Definition lowerAscii (c : ascii) : ascii :=
  let n := nat_of_ascii c in
  if (65 <=? n) && (n <=? 90) then ascii_of_nat (n + 32) else c.

(** [s.toLowerCase()] *)
Fixpoint toLowerCase (s : string) : string :=
  match s with
  | EmptyString => EmptyString
  | String c s' => String (lowerAscii c) (toLowerCase s')
  end.

(** [s.includes(sub)] *)
Fixpoint includes (s sub : string) : bool :=
  String.prefix sub s
  || match s with
     | EmptyString => false
     | String _ s' => includes s' sub
     end.

(** [s.split(sep)[0]] for a separator that is not empty: the part of [s]
    before the first occurrence of [sep], all of [s] when there is none. *)
Fixpoint splitHead (sep s : string) : string :=
  if String.prefix sep s then EmptyString
  else match s with
       | EmptyString => EmptyString
       | String c s' => String c (splitHead sep s')
       end.

(** White space that [trim] removes, among the ASCII characters:
    tab, line feed, vertical tab, form feed, carriage return, space. *)
Definition isWhiteSpace (c : ascii) : bool :=
  let n := nat_of_ascii c in
  ((9 <=? n) && (n <=? 13)) || (n =? 32).

(** [s.trim() === ''] *)
Fixpoint trimIsEmpty (s : string) : bool :=
  match s with
  | EmptyString => true
  | String c s' => isWhiteSpace c && trimIsEmpty s'
  end.

End JsString.

(** ** Label mapper (utils/diseaseMapping.ts) *)

(** The [CropType] constant object of types/api.ts and its string values. *)
Inductive CropType := CASHEW | CASSAVA | MAIZE | TOMATO.

Definition cropTypeValue (c : CropType) : string :=
  match c with
  | CASHEW => "cashew"
  | CASSAVA => "cassava"
  | MAIZE => "maize"
  | TOMATO => "tomato"
  end.

Record DiseaseMapping := mkMapping {
  localLabel : string;
  backendDiseaseName : string;
  cropType : CropType;
  isHealthy : bool
}.

Definition DISEASE_MAPPINGS : list DiseaseMapping :=
  [ mkMapping "Cashew - Anthracnose" "anthracnose" CASHEW false;
    mkMapping "Cashew - Gumosis" "gumosis" CASHEW false;
    mkMapping "Cashew - Healthy" "healthy" CASHEW true;
    mkMapping "Cashew - Leaf Miner" "leaf_miner" CASHEW false;
    mkMapping "Cashew - Red Rust" "red_rust" CASHEW false;
    mkMapping "Cassava - Bacterial Blight" "bacterial_blight" CASSAVA false;
    mkMapping "Cassava - Brown Spot" "brown_spot" CASSAVA false;
    mkMapping "Cassava - Green Mite" "green_mite" CASSAVA false;
    mkMapping "Cassava - Healthy" "healthy" CASSAVA true;
    mkMapping "Cassava - Mosaic" "mosaic" CASSAVA false;
    mkMapping "Maize - Fall Armyworm" "fall_armyworm" MAIZE false;
    mkMapping "Maize - Grasshopper" "grasshopper" MAIZE false;
    mkMapping "Maize - Healthy" "healthy" MAIZE true;
    mkMapping "Maize - Leaf Beetle" "leaf_beetle" MAIZE false;
    mkMapping "Maize - Leaf Blight" "leaf_blight" MAIZE false;
    mkMapping "Maize - Leaf Spot" "leaf_spot" MAIZE false;
    mkMapping "Maize - Streak Virus" "streak_virus" MAIZE false;
    mkMapping "Tomato - Healthy" "healthy" TOMATO true;
    mkMapping "Tomato - Leaf Blight" "leaf_blight" TOMATO false;
    mkMapping "Tomato - Leaf Curl" "leaf_curl" TOMATO false;
    mkMapping "Tomato - Septoria Leaf Spot" "septoria_leaf_spot" TOMATO false;
    mkMapping "Tomato - Verticillium Wilt" "verticillium_wilt" TOMATO false ].

(** The two lookup maps, filled by one [forEach] over the table: a later
    [set] on a key that is already present replaces the earlier record. *)
Definition buildLocalToBackend (table : list DiseaseMapping)
  : gmap string DiseaseMapping :=
  foldl (fun acc mapping => <[localLabel mapping := mapping]> acc) ∅ table.

Definition buildBackendToLocal (table : list DiseaseMapping)
  : gmap string DiseaseMapping :=
  foldl (fun acc mapping => <[backendDiseaseName mapping := mapping]> acc) ∅ table.

Definition localToBackendMap : gmap string DiseaseMapping :=
  buildLocalToBackend DISEASE_MAPPINGS.

Definition backendToLocalMap : gmap string DiseaseMapping :=
  buildBackendToLocal DISEASE_MAPPINGS.

(** [localToBackendMap.get(localLabel) || null] *)
Definition mapLocalToBackend (label : string) : option DiseaseMapping :=
  localToBackendMap !! label.

(** [backendToLocalMap.get(backendDiseaseName) || null] *)
Definition mapBackendToLocal (name : string) : option DiseaseMapping :=
  backendToLocalMap !! name.

(** [mapping?.isHealthy || false] *)
Definition isHealthyPrediction (label : string) : bool :=
  match mapLocalToBackend label with
  | Some mapping => isHealthy mapping || false
  | None => false
  end.

(** The round trip of the specification: from a record's local label to
    its record, from that record's backend name back to a record, and the
    local label of that one. *)
Definition roundTrip (m : DiseaseMapping) : option string :=
  match mapLocalToBackend (localLabel m) with
  | Some there =>
      match mapBackendToLocal (backendDiseaseName there) with
      | Some back => Some (localLabel back)
      | None => None
      end
  | None => None
  end.

(** The crop-type check of [validateMappings]: the lower-cased label prefix
    and the crop type's value, one of which has to contain the other. *)
Definition expectedCrop (mapping : DiseaseMapping) : string :=
  JsString.toLowerCase (JsString.splitHead " - " (localLabel mapping)).

Definition actualCrop (mapping : DiseaseMapping) : string :=
  JsString.toLowerCase (cropTypeValue (cropType mapping)).

Definition cropMismatch (mapping : DiseaseMapping) : bool :=
  negb (JsString.includes (expectedCrop mapping) (actualCrop mapping))
  && negb (JsString.includes (actualCrop mapping) (expectedCrop mapping)).

Record ValidationResult := mkValidation {
  valid : bool;
  errors : list string
}.

(** The state of the [forEach] of [validateMappings]: the two sets and the
    error list, which only grows at its end ([errors.push]). *)
Record ValidateState := mkValidateState {
  seenLocalLabels : gset string;
  seenBackendNames : gset string;
  pushed : list string
}.

Definition validateVisit (st : ValidateState) (mapping : DiseaseMapping)
  : ValidateState :=
  let e1 :=
    if bool_decide (localLabel mapping ∈ seenLocalLabels st)
    then pushed st ++ ["Duplicate local label: " +:+ localLabel mapping]
    else pushed st in
  let e2 :=
    if bool_decide (backendDiseaseName mapping ∈ seenBackendNames st)
    then e1 ++ ["Duplicate backend name: " +:+ backendDiseaseName mapping]
    else e1 in
  let e3 :=
    if cropMismatch mapping
    then e2 ++ ["Crop type mismatch for " +:+ localLabel mapping
                +:+ ": expected " +:+ expectedCrop mapping
                +:+ ", got " +:+ actualCrop mapping]
    else e2 in
  mkValidateState ({[localLabel mapping]} ∪ seenLocalLabels st)
                  ({[backendDiseaseName mapping]} ∪ seenBackendNames st)
                  e3.

(** [validateMappings()], with the module constant it walks over as its
    argument; [validateMappings DISEASE_MAPPINGS] is the call of the source. *)
Definition validateMappings (table : list DiseaseMapping) : ValidationResult :=
  let st := foldl validateVisit (mkValidateState ∅ ∅ []) table in
  mkValidation (length (pushed st) =? 0) (pushed st).

(** [validateModelCoverage()] of scripts/validateMapping.ts. The label table
    [readableLabels] (constants/labels.ts) is an argument. *)
Definition validateModelCoverage (readableLabels : list string)
    (table : list DiseaseMapping) : ValidationResult :=
  let mappedLabels : gset string := list_to_set (map localLabel table) in
  let errors1 :=
    foldl (fun errs label =>
             if bool_decide (label ∈ mappedLabels) then errs
             else errs ++ ["Missing mapping for model label: " +:+ label])
          [] readableLabels in
  let errors2 :=
    foldl (fun errs mapping =>
             if bool_decide (localLabel mapping ∈ readableLabels) then errs
             else errs ++ ["Mapping exists for non-existent model label: "
                           +:+ localLabel mapping])
          errors1 table in
  mkValidation (length errors2 =? 0) errors2.

(** The errors one record adds, given the records before it: what the
    specification calls the violations present. *)
Definition violationsOf (earlier : list DiseaseMapping) (mapping : DiseaseMapping)
  : list string :=
  (if bool_decide (localLabel mapping ∈ map localLabel earlier)
   then ["Duplicate local label: " +:+ localLabel mapping] else [])
  ++ (if bool_decide (backendDiseaseName mapping ∈ map backendDiseaseName earlier)
      then ["Duplicate backend name: " +:+ backendDiseaseName mapping] else [])
  ++ (if cropMismatch mapping
      then ["Crop type mismatch for " +:+ localLabel mapping
            +:+ ": expected " +:+ expectedCrop mapping
            +:+ ", got " +:+ actualCrop mapping]
      else []).

Fixpoint violationsFrom (earlier table : list DiseaseMapping) : list string :=
  match table with
  | [] => []
  | mapping :: table' =>
      violationsOf earlier mapping ++ violationsFrom (earlier ++ [mapping]) table'
  end.

(** A table of one record, against a label table of two labels. *)
Definition oneRecordTable : list DiseaseMapping :=
  [ mkMapping "Cashew - Anthracnose" "anthracnose" CASHEW false ].

Definition twoLabels : list string :=
  [ "Cashew - Anthracnose"; "Cashew - Gumosis" ].

(** A table of one record whose label has the prefix "a" and whose crop is
    cashew. *)
Definition loosePrefixTable : list DiseaseMapping :=
  [ mkMapping "a - Rot" "rot" CASHEW false ].

(** ** The numeric runtime (TensorFlow.js), as far as the program uses it *)

(** A JavaScript number: a finite value, held as a rational, or one of the
    three values that are not finite. *)
Inductive JsNumber := Fin (q : Q) | NaN | PosInf | NegInf.

(** [a > b] *)
Definition gtb (a b : JsNumber) : bool :=
  match a, b with
  | Fin x, Fin y => negb (Qle_bool x y)
  | PosInf, Fin _ | PosInf, NegInf | Fin _, NegInf => true
  | _, _ => false
  end.

(** [!isNaN(val) && isFinite(val)] *)
Definition isValidNumber (v : JsNumber) : bool :=
  match v with Fin _ => true | _ => false end.

(** The values of a float32 tensor are single-precision numbers: the result
    of an operation is the float32 nearest to the exact result, a tie going
    to the even significand, and infinity when that is out of range. *)

(** [num / den] rounded to the nearest integer, a tie to the even one. *)
Definition roundHalfEven (num den : Z) : Z :=
  let m := (num / den)%Z in
  match (2 * (num mod den) ?= den)%Z with
  | Lt => m
  | Gt => (m + 1)%Z
  | Eq => if Z.even m then m else (m + 1)%Z
  end.

(** [n / d] times [2 ^ k], as a fraction. *)
Definition shiftedRatio (n d k : Z) : Z * Z :=
  if (0 <=? k)%Z then ((n * 2 ^ k)%Z, d) else (n, (d * 2 ^ (- k))%Z).

(** The exponent [e] with [2 ^ e <= n / d < 2 ^ (e + 1)]. *)
Definition binade (n d : Z) : Z :=
  let e0 := (Z.log2 n - Z.log2 d)%Z in
  let '(num, den) := shiftedRatio n d (- e0) in
  if (num <? den)%Z then (e0 - 1)%Z else e0.

(** [Math.fround(q)]: 24 bits of significand, exponents from -126 (below
    it the spacing stays [2 ^ -149]) to 127. *)
Definition roundToFloat32 (q : Q) : JsNumber :=
  let n := Z.abs (Qnum q) in
  let d := Zpos (Qden q) in
  if (n =? 0)%Z then Fin 0
  else
    let e := Z.max (binade n d) (-126) in
    let '(num, den) := shiftedRatio n d (23 - e) in
    let m := roundHalfEven num den in
    if (127 <? e)%Z || ((e =? 127)%Z && (m =? 2 ^ 24)%Z)
    then (if (Qnum q <? 0)%Z then NegInf else PosInf)
    else
      let '(rnum, rden) := shiftedRatio m 1 (e - 23) in
      Fin (Qred (Qmake (Z.sgn (Qnum q) * rnum) (Z.to_pos rden))).

(** [v / 255] on a float32 tensor. *)
Definition div255 (v : JsNumber) : JsNumber :=
  match v with
  | Fin q => roundToFloat32 (q / 255)
  | other => other
  end.

(** The operations that make a tensor. *)
Inductive TfOp :=
  OpDecodeJpeg | OpResizeBilinear | OpExpandDims | OpDiv
| OpPredict | OpSqueeze | OpArgMax | OpRandomNormal.

(** A tensor object: its identity, its shape and its values in row-major
    order. *)
Record Tensor := mkTensor {
  tid : nat;
  shape : list nat;
  values : list JsNumber
}.

(** What a call can throw. *)
Inductive JsError :=
| EmptyUri
| NoBase64
| InvalidDecodedShape (s : list nat)
| InvalidTensorShape (s : list nat)
| ReadFailed (cause : JsError)
| AllMethodsFailed (cause : JsError)
| InsufficientOutputClasses (got : nat)
| ModelValidationFailed
| LibraryError (msg : string)
| ThrownValue.

(** The declared signature of a model input or output: its shape may be
    missing, and a dimension of it unknown. *)
Record TensorInfo := mkTensorInfo {
  infoShape : option (list (option Z))
}.

(** A loaded graph model: its declared inputs and outputs, and its forward
    pass, which gives the shape and values of the output or throws. *)
Record GraphModel := mkGraphModel {
  inputs : option (list TensorInfo);
  outputs : option (list TensorInfo);
  forward : Tensor -> JsError + (list nat * list JsNumber)
}.

(** The state of the [useTfModel] hook. *)
Record HookState := mkHookState {
  model : option GraphModel;
  ready : bool;
  error : option string;
  loadingProgress : string
}.

(** What a call does that can be seen from outside. *)
Inductive Event :=
| EvManipulate (uri : string) (attempt : nat)
| EvSleep (ms : nat)
| EvReadFile (uri : string)
| EvTensor (op : TfOp) (id : nat)
| EvDispose (id : nat).

(** The runtime state: the next tensor identity, the tensors that are live
    (made and not disposed), the events so far, and the hook's state. *)
Record World := mkWorld {
  nextId : nat;
  live : gset nat;
  trace : list Event;
  hook : HookState
}.

Inductive Outcome (A : Type) :=
| Ok (a : A)
| Throw (e : JsError).
Arguments Ok {A} a.
Arguments Throw {A} e.

(** A computation: it runs in a world and returns or throws. *)
Definition M (A : Type) : Type := World -> Outcome A * World.

Definition ret {A} (a : A) : M A := fun w => (Ok a, w).

Definition bind {A B} (m : M A) (k : A -> M B) : M B :=
  fun w => match m w with
           | (Ok a, w') => k a w'
           | (Throw e, w') => (Throw e, w')
           end.

Definition throw {A} (e : JsError) : M A := fun w => (Throw e, w).

(** [try { m } catch (e) { handler e }] *)
Definition tryCatch {A} (m : M A) (handler : JsError -> M A) : M A :=
  fun w => match m w with
           | (Ok a, w') => (Ok a, w')
           | (Throw e, w') => handler e w'
           end.

Notation "x <- m ;; k" := (bind m (fun x => k))
  (at level 20, m at level 99, k at level 200, only parsing).
Notation "m ;; k" := (bind m (fun _ => k))
  (at level 100, k at level 200, only parsing, right associativity).

(** The result of a library call, returned or thrown. *)
Definition fromResult {A} (r : JsError + A) : M A :=
  match r with
  | inl e => throw e
  | inr a => ret a
  end.

Definition emit (ev : Event) : M unit :=
  fun w => (Ok tt, mkWorld (nextId w) (live w) (trace w ++ [ev]) (hook w)).

(** [await new Promise(resolve => setTimeout(resolve, ms))] *)
Definition sleep (ms : nat) : M unit := emit (EvSleep ms).

(** A new tensor made by [op]. *)
Definition newTensor (op : TfOp) (sh : list nat) (vs : list JsNumber) : M Tensor :=
  fun w => (Ok (mkTensor (nextId w) sh vs),
            mkWorld (S (nextId w)) ({[nextId w]} ∪ live w)
                    (trace w ++ [EvTensor op (nextId w)]) (hook w)).

(** [t.dispose()] *)
Definition dispose (t : Tensor) : M unit :=
  fun w => (Ok tt, mkWorld (nextId w) (live w ∖ {[tid t]})
                           (trace w ++ [EvDispose (tid t)]) (hook w)).

(** [t.expandDims(0)] *)
Definition expandDims0 (t : Tensor) : M Tensor :=
  newTensor OpExpandDims (1 :: shape t) (values t).

(** [t.div(255.0)] *)
Definition divBy255 (t : Tensor) : M Tensor :=
  newTensor OpDiv (shape t) (map div255 (values t)).

(** [t.squeeze()]: the dimensions of size 1 removed, the values kept. *)
Definition squeeze (t : Tensor) : M Tensor :=
  newTensor OpSqueeze (filter (fun d => d ≠ 1) (shape t)) (values t).

(** What the program takes from its surroundings: the image manipulator
    (whose answer may change from one attempt to the next), the file system,
    the base64 and JPEG decoders, the values a bilinear resize computes, the
    values of the random test input, and the two steps of model loading. *)
Record Env := mkEnv {
  manipulateAsync : string -> nat -> JsError + option (option string);
  readAsStringAsync : string -> JsError + string;
  atob : string -> JsError + string;
  decodeJpeg : string -> JsError + (list nat * list JsNumber);
  resizeValues : list nat -> list JsNumber -> list JsNumber;
  randomNormalValues : list JsNumber;
  tfReady : JsError + unit;
  loadGraphModel : JsError + GraphModel
}.

(** [tf.image.resizeBilinear(t, [224, 224])]: defined on tensors of rank 3
    ([h, w, c]) and rank 4 ([b, h, w, c]); it throws on the others. *)
Definition resizeBilinear (E : Env) (t : Tensor) : M Tensor :=
  match shape t with
  | [_; _; c] =>
      newTensor OpResizeBilinear [224; 224; c] (resizeValues E (shape t) (values t))
  | [b; _; _; c] =>
      newTensor OpResizeBilinear [b; 224; 224; c] (resizeValues E (shape t) (values t))
  | _ => throw (LibraryError "Error in resizeBilinear: x must be rank 3 or 4")
  end.

(** [decodeJpeg(rawBytes)] on the bytes of [atob(base64)]; the loop that
    copies the character codes into a byte array changes no value. *)
Definition decodeBase64Jpeg (E : Env) (base64 : string) : M Tensor :=
  binaryString <- fromResult (atob E base64) ;;
  decoded <- fromResult (decodeJpeg E binaryString) ;;
  newTensor OpDecodeJpeg (fst decoded) (snd decoded).

(** ** Image normaliser (services/imageToTensor.ts) *)

(** [t.shape.length !== 3 || t.shape[2] !== 3] *)
Definition invalidImageShape (sh : list nat) : bool :=
  negb (length sh =? 3) || negb (bool_decide (sh !! 2 = Some 3)).

(** [t.shape[0] !== 224 || t.shape[1] !== 224] *)
Definition needsResize (sh : list nat) : bool :=
  negb (bool_decide (sh !! 0 = Some 224)) || negb (bool_decide (sh !! 1 = Some 224)).

(** The end of the primary path, from the decoded tensor on: the shape
    check, the batch dimension, the division by 255. *)
Definition finishPrimary (imageTensor : Tensor) : M Tensor :=
  if invalidImageShape (shape imageTensor)
  then dispose imageTensor ;;
       throw (InvalidDecodedShape (shape imageTensor))
  else
    expanded <- expandDims0 imageTensor ;;
    preprocessed <- divBy255 expanded ;;
    dispose imageTensor ;;
    ret preprocessed.

(** The end of the alternative path, from the decoded tensor on: the resize
    when the height or the width is not 224, then the same three steps. *)
Definition finishAlternative (E : Env) (imageTensor : Tensor) : M Tensor :=
  resizedTensor <-
    (if needsResize (shape imageTensor)
     then (r <- resizeBilinear E imageTensor ;;
           dispose imageTensor ;;
           ret r)
     else ret imageTensor) ;;
  if invalidImageShape (shape resizedTensor)
  then dispose resizedTensor ;;
       throw (InvalidTensorShape (shape resizedTensor))
  else
    expanded <- expandDims0 resizedTensor ;;
    preprocessed <- divBy255 expanded ;;
    dispose resizedTensor ;;
    ret preprocessed.

Definition processImageAlternative (E : Env) (uri : string) : M Tensor :=
  tryCatch
    (base64Data <-
       tryCatch (emit (EvReadFile uri) ;; fromResult (readAsStringAsync E uri))
                (fun fsError => throw (ReadFailed fsError)) ;;
     imageTensor <- decodeBase64Jpeg E base64Data ;;
     finishAlternative E imageTensor)
    (fun error => throw (AllMethodsFailed error)).

Definition maxRetries : nat := 3.

(** How the retry loop is left: by [break], with [resized] assigned, by its
    condition turning false, with [resized] as it was, or by the [return]
    inside the [catch]. *)
Inductive LoopExit :=
| LoopDone (resized : option (option string))
| LoopReturned (t : Tensor).

(** The [while (retryCount < maxRetries)] loop; [remaining] is
    [maxRetries - retryCount], the number of iterations the condition still
    allows. *)
Fixpoint retryLoop (E : Env) (uri : string) (remaining retryCount : nat)
  : M LoopExit :=
  match remaining with
  | 0 => ret (LoopDone None)
  | S remaining' =>
      emit (EvManipulate uri (retryCount + 1)) ;;
      match manipulateAsync E uri (retryCount + 1) with
      | inr resized => ret (LoopDone resized)
      | inl _ =>
          let retryCount := retryCount + 1 in
          if maxRetries <=? retryCount
          then t <- processImageAlternative E uri ;; ret (LoopReturned t)
          else sleep (200 * retryCount) ;;
               retryLoop E uri remaining' retryCount
      end
  end.

(** A file of the application's own document directory. *)
Definition isPermanentFile (uri : string) : bool :=
  JsString.includes uri "files/crop_image_"
  || JsString.includes uri "files/gallery_image_".

Definition imageToTensor (E : Env) (uri : string) : M Tensor :=
  tryCatch
    (if JsString.trimIsEmpty uri then throw EmptyUri
     else if isPermanentFile uri
     then processImageAlternative E uri
     else
       (if JsString.includes uri "Camera/" then sleep 100 else ret tt) ;;
       exit <- retryLoop E uri (maxRetries - 0) 0 ;;
       match exit with
       | LoopReturned t => ret t
       | LoopDone resized =>
           match resized with
           | Some (Some base64) =>
               if bool_decide (base64 = "") then throw NoBase64
               else
                 imageTensor <- decodeBase64Jpeg E base64 ;;
                 finishPrimary imageTensor
           | _ => throw NoBase64
           end
       end)
    (fun error => throw error).

(** ** Inference engine (services/predictImage.ts) *)

(** The arg-max of one row, as the runtime's reference kernel computes it:
    the running maximum starts at the first value and moves only to a value
    that is strictly greater. *)
Fixpoint argMaxFrom (max : JsNumber) (maxIndex j : nat) (row : list JsNumber)
  : nat :=
  match row with
  | [] => maxIndex
  | value :: row' =>
      if gtb value max then argMaxFrom value j (S j) row'
      else argMaxFrom max maxIndex (S j) row'
  end.

Definition argMaxRow (row : list JsNumber) : nat :=
  match row with
  | [] => 0
  | first :: _ => argMaxFrom first 0 0 row
  end.

(** The rows of length [n] of a row-major value list; [fuel] bounds their
    number. *)
Fixpoint rowsOf (fuel n : nat) (vs : list JsNumber) : list (list JsNumber) :=
  match fuel with
  | 0 => []
  | S fuel' =>
      match vs with
      | [] => []
      | _ => take n vs :: rowsOf fuel' n (drop n vs)
      end
  end.

(** [t.argMax(-1)]: along the last axis, one index per row; it throws on a
    tensor of rank 0, which has no axis. The indices are the values of a new
    tensor. *)
Definition argMaxLast (t : Tensor) : M (Tensor * list nat) :=
  match last (shape t) with
  | None => throw (LibraryError "All values in axis param must be in range [-0, 0) but got axis -1")
  | Some n =>
      let indices := map argMaxRow (rowsOf (length (values t)) n (values t)) in
      r <- newTensor OpArgMax (removelast (shape t))
                     (map (fun i => Fin (inject_Z (Z.of_nat i))) indices) ;;
      ret (r, indices)
  end.

Record Prediction := mkPrediction {
  pLabel : option string;
  pConfidence : JsNumber;
  pClassIndex : nat
}.

(** A field is [None] where the program reads [undefined]: an index past the
    end of an array. *)
Record PredictionResult := mkPredictionResult {
  label : option string;
  confidence : option JsNumber;
  classIndex : option nat;
  allScores : list JsNumber;
  topPredictions : list Prediction
}.

(** [.sort((a, b) => b.confidence - a.confidence)]: a stable sort by
    descending confidence. *)
Fixpoint insertByConfidence (p : Prediction) (sorted : list Prediction)
  : list Prediction :=
  match sorted with
  | [] => [p]
  | q :: sorted' =>
      if gtb (pConfidence q) (pConfidence p)
      then q :: insertByConfidence p sorted'
      else p :: q :: sorted'
  end.

Definition sortByConfidence (ps : list Prediction) : list Prediction :=
  foldr insertByConfidence [] ps.

Definition expectedClasses : nat := 22.

(** The inner [try] block of [predictImage]: the scores of the raw output
    brought to 22 values, with the tensor that [argMax] is then called on. *)
Definition reconcileScores (prediction : Tensor) : M (Tensor * list JsNumber) :=
  tryCatch
    (let scores := values prediction in
     if length scores =? expectedClasses then ret (prediction, scores)
     else
       squeezed <-
         (if 1 <? length (shape prediction)
          then (processedPrediction <- squeeze prediction ;;
                ret (processedPrediction, values processedPrediction))
          else ret (prediction, scores)) ;;
       let processedPrediction := fst squeezed in
       let scores := snd squeezed in
       if expectedClasses <? length scores
       then ret (processedPrediction, take expectedClasses scores)
       else if length scores <? expectedClasses
       then throw (InsufficientOutputClasses (length scores))
       else ret (processedPrediction, scores))
    (fun error => throw error).

(** [model.predict(tensor)] *)
Definition predict (m : GraphModel) (input : Tensor) : M Tensor :=
  out <- fromResult (forward m input) ;;
  newTensor OpPredict (fst out) (snd out).

(** [predictImage(uri, model)]; [None] is [null]. The label table
    [readableLabels] (constants/labels.ts) is an argument. *)
Definition predictImage (E : Env) (readableLabels : list string)
    (uri : string) (model : option GraphModel) : M (option PredictionResult) :=
  match model with
  | None => ret None
  | Some model =>
      tryCatch
        (tensor <- imageToTensor E uri ;;
         prediction <- predict model tensor ;;
         reconciled <- reconcileScores prediction ;;
         let processedPrediction := fst reconciled in
         let scores := snd reconciled in
         am <- argMaxLast processedPrediction ;;
         let classIndex := snd am !! 0 in
         let confidence := classIndex ≫= (fun i => scores !! i) in
         let label := classIndex ≫= (fun i => readableLabels !! i) in
         let scoresArray := scores in
         let topPredictions :=
           take 3 (sortByConfidence
                     (imap (fun index score =>
                              mkPrediction (readableLabels !! index) score index)
                           scoresArray)) in
         dispose tensor ;;
         dispose prediction ;;
         (if bool_decide (tid processedPrediction ≠ tid prediction)
          then dispose processedPrediction else ret tt) ;;
         ret (Some (mkPredictionResult label confidence classIndex
                                       scoresArray topPredictions)))
        (fun _ => ret None)
  end.

(** ** Model validator (utils/modelUtils.ts) *)

(** [ModelValidator.validateModel(model)]. What it logs is left out; the
    warnings about unexpected dimensions change no result. *)
Definition validateModel (m : GraphModel) : bool :=
  match inputs m with
  | None | Some [] => false
  | Some (_ :: _) =>
      match outputs m with
      | None | Some [] => false
      | Some (output0 :: _) =>
          match infoShape output0 with
          | None => true
          | Some outputShape =>
              if length outputShape <? 1 then false
              else true
          end
      end
  end.

(** [ModelValidator.testModelPrediction(model)] *)
Definition testModelPrediction (E : Env) (m : GraphModel) : M bool :=
  tryCatch
    (dummyInput <- newTensor OpRandomNormal [1; 224; 224; 3] (randomNormalValues E) ;;
     prediction <- predict m dummyInput ;;
     processed <-
       tryCatch
         (let output := values prediction in
          squeezed <-
            (if 2 <? length (shape prediction)
             then (processedPrediction <- squeeze prediction ;;
                   ret (processedPrediction, values processedPrediction))
             else ret (prediction, output)) ;;
          let output := snd squeezed in
          if expectedClasses <? length output
          then ret (fst squeezed, take expectedClasses output)
          else ret (fst squeezed, output))
         (fun error => throw error) ;;
     let processedPrediction := fst processed in
     let output := snd processed in
     dispose dummyInput ;;
     dispose prediction ;;
     (if bool_decide (tid processedPrediction ≠ tid prediction)
      then dispose processedPrediction else ret tt) ;;
     if length output <? expectedClasses then ret false
     else if negb (forallb isValidNumber output) then ret false
     else ret true)
    (fun _ => ret true).

(** ** Model loader (hooks/useTfModel.ts) *)

Definition setModel (m : option GraphModel) : M unit :=
  fun w => (Ok tt, mkWorld (nextId w) (live w) (trace w)
                     (mkHookState m (ready (hook w)) (error (hook w))
                                  (loadingProgress (hook w)))).

Definition setReady (b : bool) : M unit :=
  fun w => (Ok tt, mkWorld (nextId w) (live w) (trace w)
                     (mkHookState (model (hook w)) b (error (hook w))
                                  (loadingProgress (hook w)))).

Definition setError (e : option string) : M unit :=
  fun w => (Ok tt, mkWorld (nextId w) (live w) (trace w)
                     (mkHookState (model (hook w)) (ready (hook w)) e
                                  (loadingProgress (hook w)))).

Definition setLoadingProgress (s : string) : M unit :=
  fun w => (Ok tt, mkWorld (nextId w) (live w) (trace w)
                     (mkHookState (model (hook w)) (ready (hook w))
                                  (error (hook w)) s)).

(** [String(shape)]: the dimensions, with commas between them. *)
Fixpoint showShape (sh : list nat) : string :=
  match sh with
  | [] => ""
  | [d] => pretty d
  | d :: sh' => pretty d +:+ "," +:+ showShape sh'
  end.

(** [err instanceof Error]: everything the program and the libraries throw
    is an [Error], but a thrown value of another kind. *)
Definition isError (err : JsError) : bool :=
  match err with ThrownValue => false | _ => true end.

(** [err.message], and [String(err)] as a template literal prints it. *)
Fixpoint errorMessage (err : JsError) : string :=
  let show (cause : JsError) : string :=
    if isError cause then "Error: " +:+ errorMessage cause
    else errorMessage cause in
  match err with
  | EmptyUri => "Empty or invalid image URI"
  | NoBase64 => "Failed to get base64 from resized image"
  | InvalidDecodedShape sh =>
      "Invalid decoded tensor shape: " +:+ showShape sh
      +:+ ". Expected [224, 224, 3]"
  | InvalidTensorShape sh =>
      "Invalid tensor shape: " +:+ showShape sh +:+ ". Expected [224, 224, 3]"
  | ReadFailed cause => "Failed to read image file: " +:+ show cause
  | AllMethodsFailed cause =>
      "All image processing methods failed. Original error: " +:+ show cause
  | InsufficientOutputClasses got =>
      "Insufficient output classes: got " +:+ pretty got +:+ ", need 22"
  | ModelValidationFailed => "Model validation failed"
  | LibraryError msg => msg
  | ThrownValue => ""
  end.

(** [err instanceof Error ? err.message : 'Unknown error loading model'] *)
Definition loadErrorMessage (err : JsError) : string :=
  if isError err then errorMessage err else "Unknown error loading model".

(** The initial state of the hook ([useState]). *)
Definition initialHook : HookState :=
  mkHookState None false None "Initializing...".

(** The [load] function the hook's effect runs. *)
Definition load (E : Env) : M unit :=
  tryCatch
    (setLoadingProgress "Initializing TensorFlow.js..." ;;
     fromResult (tfReady E) ;;
     setLoadingProgress "Loading model files..." ;;
     setLoadingProgress "Assembling model..." ;;
     loadedModel <- fromResult (loadGraphModel E) ;;
     setLoadingProgress "Validating model..." ;;
     (if negb (validateModel loadedModel) then throw ModelValidationFailed
      else ret tt) ;;
     setLoadingProgress "Testing model..." ;;
     testPassed <- testModelPrediction E loadedModel ;;
     setModel (Some loadedModel) ;;
     setReady true ;;
     setError None ;;
     setLoadingProgress "Ready")
    (fun err =>
       setError (Some (loadErrorMessage err)) ;;
       setReady false ;;
       setLoadingProgress "Failed").

(** ** Concrete surroundings for the examples *)

Definition world0 : World := mkWorld 0 ∅ [] initialHook.

(** The label table of the examples: the local labels of the mapping table,
    in its order. *)
Definition labels22 : list string := map localLabel DISEASE_MAPPINGS.

(** A photo that does not exist: every attempt to manipulate it fails and so
    does reading it. *)
Definition envMissingFile : Env :=
  mkEnv (fun _ _ => inl (LibraryError "File does not exist"))
        (fun _ => inl (LibraryError "No such file or directory"))
        (fun _ => inl (LibraryError "atob: invalid character"))
        (fun _ => inl (LibraryError "Expected image (JPEG), but got unsupported image type"))
        (fun _ vs => vs)
        []
        (inr tt)
        (inl (LibraryError "Failed to load model")).

(** A black photo of 224 x 224 pixels, read without trouble. *)
Definition blackPixels : list JsNumber := repeat (Fin 0) (224 * 224 * 3).

Definition envBlackPhoto (net : GraphModel) : Env :=
  mkEnv (fun _ _ => inr (Some (Some "/9j/4AAQSkZJRg==")))
        (fun _ => inr "/9j/4AAQSkZJRg==")
        (fun b64 => inr b64)
        (fun _ => inr ([224; 224; 3], blackPixels))
        (fun _ vs => vs)
        []
        (inr tt)
        (inr net).

Definition oneInfo : TensorInfo := mkTensorInfo None.

(** 30 output values: 9/10 at index 5, 19/20 at index 25, 0 elsewhere. *)
Definition scores30 : list JsNumber :=
  repeat (Fin 0) 5 ++ [Fin (9 # 10)] ++ repeat (Fin 0) 19
  ++ [Fin (19 # 20)] ++ repeat (Fin 0) 4.

Definition model30 : GraphModel :=
  mkGraphModel (Some [oneInfo]) (Some [oneInfo]) (fun _ => inr ([1; 30], scores30)).

(** 10 output values only. *)
Definition model10 : GraphModel :=
  mkGraphModel (Some [oneInfo]) (Some [oneInfo])
               (fun _ => inr ([1; 10], repeat (Fin (1 # 10)) 10)).

(** 22 output values, the greatest at index 5. *)
Definition scores22 : list JsNumber :=
  repeat (Fin 0) 5 ++ [Fin (9 # 10)] ++ repeat (Fin 0) 16.

Definition model22 : GraphModel :=
  mkGraphModel (Some [oneInfo]) (Some [oneInfo]) (fun _ => inr ([1; 22], scores22)).

(** A model whose forward pass throws. *)
Definition modelThrowing : GraphModel :=
  mkGraphModel (Some [oneInfo]) (Some [oneInfo])
               (fun _ => inl (LibraryError "Error when checking model input")).

(** The hook's state after a failed [load]. *)
Definition failedHook (before : HookState) (message : string) : HookState :=
  mkHookState (model before) false (Some message) "Failed".

(** The hook's state after a successful [load]. *)
Definition readyHook (m : GraphModel) : HookState :=
  mkHookState (Some m) true None "Ready".


(** *** Reading the trace *)

Definition isManipulate (ev : Event) : bool :=
  match ev with EvManipulate _ _ => true | _ => false end.

Definition isReadFile (ev : Event) : bool :=
  match ev with EvReadFile _ => true | _ => false end.

Definition isResize (ev : Event) : bool :=
  match ev with EvTensor OpResizeBilinear _ => true | _ => false end.

Definition countEvents (p : Event -> bool) (tr : list Event) : nat :=
  length (List.filter p tr).

(** The events between the world [w] and the later world [w']. *)
Definition newEvents (w w' : World) : list Event :=
  drop (length (trace w)) (trace w').

(** The world [w] after the events [evs], nothing else changed. *)
Definition withEvents (w : World) (evs : list Event) : World :=
  mkWorld (nextId w) (live w) (trace w ++ evs) (hook w).

(** The delay before the first attempt on a photo of the camera. *)
Definition cameraDelay (uri : string) : list Event :=
  if JsString.includes uri "Camera/" then [EvSleep 100] else [].

(** The events of three failed attempts on the primary path, with the two
    waits between them. *)
Definition threeAttempts (uri : string) : list Event :=
  [ EvManipulate uri 1; EvSleep 200; EvManipulate uri 2; EvSleep 400;
    EvManipulate uri 3 ].

(** From [w] to [w'] the trace has grown by at most [a] attempts of the
    primary path and [b] reads of the file. *)
Definition within (a b : nat) (w w' : World) : Prop :=
  exists added,
    trace w' = trace w ++ added
    /\ countEvents isManipulate added <= a
    /\ countEvents isReadFile added <= b.

(** A red image of 2 x 2 pixels in a file of the document directory. The
    bilinear resize of an image of one colour is the image of that colour
    in the new size. *)
Definition redPixels (pixels : nat) : list JsNumber :=
  concat (repeat [Fin 255; Fin 0; Fin 0] pixels).

Definition envRedFile : Env :=
  mkEnv (fun _ _ => inl (LibraryError "File does not exist"))
        (fun _ => inr "/9j/4AAQSkZJRgABAQ==")
        (fun b64 => inr b64)
        (fun _ => inr ([2; 2; 3], redPixels (2 * 2)))
        (fun _ vs => concat (repeat (take 3 vs) (224 * 224)))
        []
        (inr tt)
        (inl (LibraryError "Failed to load model")).



(** *** Statements about computations *)

(** A computation keeps the relation [R] when [R] holds from the world it
    starts in to the world it ends in. *)
Definition keeps (R : World -> World -> Prop) {A} (m : M A) : Prop :=
  forall w, R w (snd (m w)).

(** The relation of two worlds with the same hook state. *)
Definition sameHook (w w' : World) : Prop := hook w' = hook w.


(** ** The rest of the label mapper (utils/diseaseMapping.ts) *)

Module JsText.

(** [c] upper-cased, for the ASCII letters. *)
Definition upperAscii (c : ascii) : ascii :=
  let n := nat_of_ascii c in
  if (97 <=? n) && (n <=? 122) then ascii_of_nat (n - 32) else c.

(** A character of the class [\w]: a letter, a digit or the underscore. *)
Definition isWordChar (c : ascii) : bool :=
  let n := nat_of_ascii c in
  ((48 <=? n) && (n <=? 57)) || ((65 <=? n) && (n <=? 90))
  || ((97 <=? n) && (n <=? 122)) || (n =? 95).

(** [s.split(sep)] for a separator that is not empty: the current part and
    the parts after it; [skip] counts the characters of a separator still to
    be passed over. *)
Fixpoint splitFrom (sep : string) (skip : nat) (s : string)
  : string * list string :=
  match s with
  | EmptyString => (EmptyString, [])
  | String c s' =>
      match skip with
      | S skip' => splitFrom sep skip' s'
      | 0 =>
          if String.prefix sep s
          then let rest := splitFrom sep (String.length sep - 1) s' in
               (EmptyString, fst rest :: snd rest)
          else let rest := splitFrom sep 0 s' in
               (String c (fst rest), snd rest)
      end
  end.

Definition split (sep s : string) : list string :=
  let parts := splitFrom sep 0 s in fst parts :: snd parts.

(** [s.replace(/\s+/g, '_')]: every run of white space becomes one
    underscore; [inRun] says that the character before was white space. *)
Fixpoint replaceSpaceRuns (inRun : bool) (s : string) : string :=
  match s with
  | EmptyString => EmptyString
  | String c s' =>
      if JsString.isWhiteSpace c
      then if inRun then replaceSpaceRuns true s'
           else String "_" (replaceSpaceRuns true s')
      else String c (replaceSpaceRuns false s')
  end.

(** [s.replace(/_/g, ' ')] *)
Fixpoint replaceUnderscores (s : string) : string :=
  match s with
  | EmptyString => EmptyString
  | String c s' =>
      String (if Ascii.eqb c "_" then " "%char else c) (replaceUnderscores s')
  end.

(** [s.replace(/\b\w/g, l => l.toUpperCase())]: a word character is
    upper-cased when the character before it is none; [afterWord] says that
    the character before was a word character. *)
Fixpoint capitalizeWords (afterWord : bool) (s : string) : string :=
  match s with
  | EmptyString => EmptyString
  | String c s' =>
      String (if isWordChar c && negb afterWord then upperAscii c else c)
             (capitalizeWords (isWordChar c) s')
  end.

End JsText.

(** The fall back of [extractCropTypeFromLabel]: the first crop name, in the
    order of the source, that the lower-cased label contains. *)
Definition parseCropFromLabel (label : string) : CropType :=
  let lowerLabel := JsString.toLowerCase label in
  if JsString.includes lowerLabel "cashew" then CASHEW
  else if JsString.includes lowerLabel "cassava" then CASSAVA
  else if JsString.includes lowerLabel "maize" then MAIZE
  else if JsString.includes lowerLabel "tomato" then TOMATO
  else MAIZE.

Definition extractCropTypeFromLabel (label : string) : CropType :=
  match mapLocalToBackend label with
  | Some mapping => cropType mapping
  | None => parseCropFromLabel label
  end.

(** [s.toLowerCase().replace(/\s+/g, '_')] *)
Definition slug (s : string) : string :=
  JsText.replaceSpaceRuns false (JsString.toLowerCase s).

(** The fall back of [extractDiseaseFromLabel]: the second part of the
    label when there is one, the whole label else. *)
Definition parseDiseaseFromLabel (label : string) : string :=
  match JsText.split " - " label with
  | _ :: part1 :: _ => slug part1
  | _ => slug label
  end.

Definition extractDiseaseFromLabel (label : string) : string :=
  match mapLocalToBackend label with
  | Some mapping => backendDiseaseName mapping
  | None => parseDiseaseFromLabel label
  end.

Global Instance CropType_eq_dec : EqDecision CropType.
Proof. solve_decision. Defined.

(** [getDiseasesForCrop(cropType)], with the module constant it filters as
    its argument. *)
Definition getDiseasesForCrop (table : list DiseaseMapping) (crop : CropType)
  : list DiseaseMapping :=
  List.filter (fun mapping => bool_decide (cropType mapping = crop)) table.

(** [getSupportedCropTypes()], with the module constant as its argument. A
    [Set] keeps its elements in the order of their first insertion, and
    [Array.from] reads them in that order. *)
Definition getSupportedCropTypes (table : list DiseaseMapping) : list CropType :=
  foldl (fun cropTypes mapping =>
           if bool_decide (cropType mapping ∈ cropTypes) then cropTypes
           else cropTypes ++ [cropType mapping])
        [] table.

(** [localToBackendMap.has(localLabel)] *)
Definition isValidLocalLabel (label : string) : bool :=
  bool_decide (is_Some (localToBackendMap !! label)).

(** The fall back of [getReadableDiseaseName]. *)
Definition formatBackendName (name : string) : string :=
  JsText.capitalizeWords false (JsText.replaceUnderscores name).

Definition getReadableDiseaseName (name : string) : string :=
  match mapBackendToLocal name with
  | Some mapping => localLabel mapping
  | None => formatBackendName name
  end.

(** A backend name as the fall back of [extractDiseaseFromLabel] writes
    it: lower-case letters, digits and underscores, no two underscores in a
    row. *)
Definition isNameChar (c : ascii) : bool :=
  let n := nat_of_ascii c in
  ((48 <=? n) && (n <=? 57)) || ((97 <=? n) && (n <=? 122)) || (n =? 95).

Fixpoint backendNameShape (afterUnderscore : bool) (s : string) : bool :=
  match s with
  | EmptyString => true
  | String c s' =>
      isNameChar c
      && negb (afterUnderscore && Ascii.eqb c "_")
      && backendNameShape (Ascii.eqb c "_") s'
  end.

(** The characters of a string. *)
Definition chars (s : string) : list ascii := list_ascii_of_string s.

(** ** The validation script (scripts/validateMapping.ts) *)

Definition expectedBackendDiseases : list string :=
  [ "anthracnose"; "gumosis"; "leaf_miner"; "red_rust"; "healthy";
    "bacterial_blight"; "brown_spot"; "green_mite"; "mosaic"; "healthy";
    "fall_armyworm"; "grasshopper"; "leaf_beetle"; "leaf_blight"; "leaf_spot";
    "streak_virus"; "healthy";
    "leaf_blight"; "leaf_curl"; "septoria_leaf_spot"; "verticillium_wilt";
    "healthy" ].

(** [validateBackendFormat()], with the module constant it checks as its
    argument. *)
Definition validateBackendFormat (table : list DiseaseMapping) : ValidationResult :=
  let mappedBackendNames : gset string :=
    list_to_set (map backendDiseaseName table) in
  let errors1 :=
    foldl (fun errs disease =>
             if bool_decide (disease ∈ mappedBackendNames) then errs
             else errs ++ ["Missing mapping for expected backend disease: "
                           +:+ disease])
          [] expectedBackendDiseases in
  let errors2 :=
    foldl (fun errs mapping =>
             if bool_decide (backendDiseaseName mapping ∈ expectedBackendDiseases)
             then errs
             else errs ++ ["Unexpected backend disease name: "
                           +:+ backendDiseaseName mapping])
          errors1 table in
  mkValidation (length errors2 =? 0) errors2.

(** [allValid] of [runValidation()]: the three validations together. *)
Definition runValidationAllValid (readableLabels : list string)
    (table : list DiseaseMapping) : bool :=
  valid (validateMappings table)
  && valid (validateModelCoverage readableLabels table)
  && valid (validateBackendFormat table).

(** ** The rest of the model utilities (utils/modelUtils.ts) *)

(** [TensorUtils.disposeTensors(...tensors)]: every tensor that is given is
    disposed; [None] is [null] or [undefined]. *)
Fixpoint disposeTensors (tensors : list (option Tensor)) : M unit :=
  match tensors with
  | [] => ret tt
  | tensor :: rest =>
      (match tensor with
       | Some t => dispose t
       | None => ret tt
       end) ;;
      disposeTensors rest
  end.

(** The identities of the tensors that are given. *)
Definition givenIds (tensors : list (option Tensor)) : list nat :=
  omap (fun tensor => option_map tid tensor) tensors.

(** A world in which the identities to come are not in use. *)
Definition freshIds (w : World) : Prop :=
  forall i, i ∈ live w -> i < nextId w.

(** ** The detection service (services/cropDetectionService.ts) *)

Record CropDetectionService := mkService {
  serviceModel : option GraphModel;
  serviceIsReady : bool
}.

(** [model !== null] *)
Definition notNull {A} (x : option A) : bool :=
  match x with Some _ => true | None => false end.

(** [new CropDetectionService(model)] *)
Definition newCropDetectionService (m : option GraphModel) : CropDetectionService :=
  mkService m (notNull m).

Definition updateModel (service : CropDetectionService) (m : option GraphModel)
  : CropDetectionService :=
  mkService m (notNull m).

Definition detectCrop (E : Env) (readableLabels : list string)
    (service : CropDetectionService) (imageUri : string)
  : M (option PredictionResult) :=
  if negb (serviceIsReady service) || negb (notNull (serviceModel service))
  then ret None
  else tryCatch (predictImage E readableLabels imageUri (serviceModel service))
                (fun _ => ret None).

Definition isModelReady (service : CropDetectionService) : bool :=
  serviceIsReady service.

(** ** The network status hook (hooks/useNetworkStatus.ts) *)

Inductive NetworkStatus := online | offline | poor.

(** What NetInfo reports: the two flags may be [null]. *)
Record NetInfoState := mkNetInfoState {
  netIsConnected : option bool;
  netIsInternetReachable : option bool;
  netType : string
}.

Record NetworkState := mkNetworkState {
  isConnected : bool;
  isInternetReachable : bool;
  connectionType : string;
  status : NetworkStatus
}.

(** [state.type || 'unknown'] *)
Definition typeOrUnknown (t : string) : string :=
  if bool_decide (t = "") then "unknown" else t.

(** The state that the listener of [NetInfo.addEventListener] sets. *)
Definition onNetInfoEvent (state : NetInfoState) : NetworkState :=
  let isConnected := default false (netIsConnected state) in
  let isInternetReachable := default false (netIsInternetReachable state) in
  let status :=
    if isConnected && isInternetReachable
    then if bool_decide (netType state = "wifi")
            || bool_decide (netType state = "ethernet")
         then online
         else if bool_decide (netType state = "cellular") then online
         else poor
    else if isConnected && negb isInternetReachable then poor
    else offline in
  mkNetworkState isConnected isInternetReachable
                 (typeOrUnknown (netType state)) status.

(** The state that the answer of [NetInfo.fetch()] sets. *)
Definition onNetInfoFetch (state : NetInfoState) : NetworkState :=
  let isConnected := default false (netIsConnected state) in
  let isInternetReachable := default false (netIsInternetReachable state) in
  let status :=
    if isConnected && isInternetReachable then online
    else if isConnected && negb isInternetReachable then poor
    else offline in
  mkNetworkState isConnected isInternetReachable
                 (typeOrUnknown (netType state)) status.

(** The three flags the hook returns beside the state. *)
Definition isOnline (s : NetworkState) : bool :=
  match status s with online => true | _ => false end.
Definition isOffline (s : NetworkState) : bool :=
  match status s with offline => true | _ => false end.
Definition isPoorConnection (s : NetworkState) : bool :=
  match status s with poor => true | _ => false end.

(** ** Orders and traces the further properties speak of *)

(** [b] is not above [a]: the order of the sorted predictions. *)
Definition notAbove (a b : Prediction) : Prop :=
  gtb (pConfidence b) (pConfidence a) = false.

(** The events of [failed] attempts of the primary path that failed, each
    followed by its wait, the first of them being attempt [retryCount + 1]. *)
Fixpoint failedAttempts (uri : string) (failed retryCount : nat) : list Event :=
  match failed with
  | 0 => []
  | S failed' =>
      EvManipulate uri (retryCount + 1) :: EvSleep (200 * (retryCount + 1))
        :: failedAttempts uri failed' (retryCount + 1)
  end.

(** What follows the loop once the manipulator has answered. *)
Definition afterManipulate (E : Env) (resized : option (option string))
  : M Tensor :=
  match resized with
  | Some (Some base64) =>
      if bool_decide (base64 = "") then throw NoBase64
      else
        imageTensor <- decodeBase64Jpeg E base64 ;;
        finishPrimary imageTensor
  | _ => throw NoBase64
  end.

(** A photo the manipulator cannot open at first and resizes at the second
    attempt. *)
Definition envSecondAttempt : Env :=
  mkEnv (fun _ attempt =>
           if attempt <? 2 then inl (LibraryError "File is not readable yet")
           else inr (Some (Some "/9j/4AAQSkZJRg==")))
        (fun _ => inl (LibraryError "No such file or directory"))
        (fun b64 => inr b64)
        (fun _ => inr ([2; 2; 3], redPixels (2 * 2)))
        (fun _ vs => vs)
        []
        (inr tt)
        (inl (LibraryError "Failed to load model")).

(** ** When the direct read is used, and what it does *)

(** Whether the manipulator throws at the attempt [attempt]. *)
Definition attemptThrows (E : Env) (uri : string) (attempt : nat) : bool :=
  match manipulateAsync E uri attempt with
  | inl _ => true
  | inr _ => false
  end.

(** Whether it throws at each of the three attempts. *)
Definition allAttemptsThrow (E : Env) (uri : string) : bool :=
  attemptThrows E uri 1 && attemptThrows E uri 2 && attemptThrows E uri 3.

(** The number of attempts until the manipulator answers, three at most. *)
Definition attemptsMade (E : Env) (uri : string) : nat :=
  if attemptThrows E uri 1
  then (if attemptThrows E uri 2 then 3 else 2)
  else 1.

(** The events of the direct read of an image of a valid shape, [n] being
    the identity of the decoded tensor: the read, the decoding, the resize
    and the disposal of the decoded tensor when [resize] is set, then the
    batch dimension, the division and the disposal of the tensor they were
    made from. *)
Definition directReadEvents (uri : string) (n : nat) (resize : bool)
  : list Event :=
  EvReadFile uri :: EvTensor OpDecodeJpeg n
    :: (if resize
        then [ EvTensor OpResizeBilinear (S n); EvDispose n;
               EvTensor OpExpandDims (S (S n)); EvTensor OpDiv (S (S (S n)));
               EvDispose (S n) ]
        else [ EvTensor OpExpandDims (S n); EvTensor OpDiv (S (S n));
               EvDispose n ]).

(** A photo the manipulator answers for without base64 data, though the
    file can be read and holds a black image of 224 x 224 pixels. *)
Definition envNoBase64 : Env :=
  mkEnv (fun _ _ => inr (Some None))
        (fun _ => inr "/9j/4AAQSkZJRg==")
        (fun b64 => inr b64)
        (fun _ => inr ([224; 224; 3], blackPixels))
        (fun _ vs => vs)
        []
        (inr tt)
        (inl (LibraryError "Failed to load model")).









(** * Properties *)

(** ** Label mapper *)

Section LookupMaps.
Context {V : Type} (key : V -> string).

(** A key that no record of the table has is looked up as before the
    table was entered. *)
Lemma build_lookup_absent (table : list V) (acc : gmap string V) (k : string) :
  k ∉ map key table ->
  foldl (fun (m : gmap string V) v => <[key v := v]> m) acc table !! k = acc !! k.
Proof.
  revert acc. induction table as [|v table IH]; intros acc Hk; [done|].
  cbn in *. rewrite IH.
  - apply lookup_insert_ne. intros Heq. apply Hk. rewrite <- Heq. left.
  - intros Hin. apply Hk. by right.
Qed.

(** The last record with a key is the one the key is looked up to. *)
Lemma build_lookup_last (pre post : list V) (acc : gmap string V) (v : V) :
  key v ∉ map key post ->
  foldl (fun (m : gmap string V) v => <[key v := v]> m) acc (pre ++ v :: post)
    !! key v = Some v.
Proof.
  intros Hpost. rewrite foldl_app. cbn.
  rewrite (build_lookup_absent post _ (key v) Hpost).
  apply lookup_insert_eq.
Qed.

Lemma build_lookup_unique (table : list V) (v : V) :
  NoDup (map key table) -> v ∈ table ->
  foldl (fun (m : gmap string V) v => <[key v := v]> m) ∅ table !! key v
  = Some v.
Proof.
  intros Hnd Hin.
  apply list_elem_of_split in Hin as (pre & post & ->).
  apply build_lookup_last.
  rewrite map_app in Hnd. cbn in Hnd.
  apply NoDup_app in Hnd as (_ & _ & Hnd).
  by apply NoDup_cons in Hnd as [Hnotin _].
Qed.
End LookupMaps.

Lemma DISEASE_MAPPINGS_localLabel_NoDup : NoDup (map localLabel DISEASE_MAPPINGS).
Proof. apply (bool_decide_unpack _). vm_compute. exact I. Qed.

Example validateMappings_live :
  validateMappings DISEASE_MAPPINGS =
  mkValidation false
    [ "Duplicate backend name: healthy"; "Duplicate backend name: healthy";
      "Duplicate backend name: healthy"; "Duplicate backend name: leaf_blight" ].
Proof. vm_compute. reflexivity. Qed.

(** The round trip gives back every record but four: those whose backend
    name a later record repeats. *)
Example roundTrip_survivors :
  map localLabel
      (filter (fun m => roundTrip m ≠ Some (localLabel m)) DISEASE_MAPPINGS)
  = [ "Cashew - Healthy"; "Cassava - Healthy"; "Maize - Healthy";
      "Maize - Leaf Blight" ].
Proof. vm_compute. reflexivity. Qed.

(** C1. The round trip through the two lookup maps does not give back every
    record: "healthy" is the backend name of four records and the map from
    backend names keeps the last of them, so the round trip from
    "Cashew - Healthy" ends at "Tomato - Healthy". *)
Theorem roundTrip_Cashew_Healthy :
  In (mkMapping "Cashew - Healthy" "healthy" CASHEW true) DISEASE_MAPPINGS
  /\ mapLocalToBackend "Cashew - Healthy"
     = Some (mkMapping "Cashew - Healthy" "healthy" CASHEW true)
  /\ mapBackendToLocal "healthy"
     = Some (mkMapping "Tomato - Healthy" "healthy" TOMATO true)
  /\ roundTrip (mkMapping "Cashew - Healthy" "healthy" CASHEW true)
     = Some "Tomato - Healthy".
Proof.
  split; [cbn; tauto|].
  split; [vm_compute; reflexivity|].
  split; vm_compute; reflexivity.
Qed.

(** C5. A label with no record is never reported healthy, and a label with a
    record is reported with that record's flag. *)
Theorem isHealthyPrediction_fail_safe :
  (forall label : string,
      label ∉ map localLabel DISEASE_MAPPINGS ->
      isHealthyPrediction label = false)
  /\ (forall m : DiseaseMapping,
         m ∈ DISEASE_MAPPINGS ->
         isHealthyPrediction (localLabel m) = isHealthy m).
Proof.
  split.
  - intros label Hnot. unfold isHealthyPrediction, mapLocalToBackend,
      localToBackendMap, buildLocalToBackend.
    rewrite (build_lookup_absent localLabel DISEASE_MAPPINGS ∅ label Hnot).
    by rewrite lookup_empty.
  - intros m Hin. unfold isHealthyPrediction, mapLocalToBackend,
      localToBackendMap, buildLocalToBackend.
    rewrite (build_lookup_unique localLabel DISEASE_MAPPINGS m
               DISEASE_MAPPINGS_localLabel_NoDup Hin).
    apply orb_false_r.
Qed.

Lemma isHealthyPrediction_fail_safe_witness :
  isHealthyPrediction "Cashew - Mildew" = false
  /\ isHealthyPrediction "Cassava - Healthy" = true.
Proof.
  split.
  - apply (proj1 isHealthyPrediction_fail_safe). vm_compute.
    intros H. repeat (apply elem_of_cons in H as [H|H]; [discriminate H|]).
    by apply elem_of_nil in H.
  - apply (proj2 isHealthyPrediction_fail_safe
             (mkMapping "Cassava - Healthy" "healthy" CASSAVA true)).
    repeat first [ apply list_elem_of_here | apply list_elem_of_further ].
Defined.

(** *** The two validations *)

Lemma violationsOf_nil (earlier : list DiseaseMapping) (m : DiseaseMapping) :
  violationsOf earlier m = []
  <-> (localLabel m ∉ map localLabel earlier)
      /\ (backendDiseaseName m ∉ map backendDiseaseName earlier)
      /\ cropMismatch m = false.
Proof.
  unfold violationsOf. split.
  - intros H.
    apply app_eq_nil in H as [H1 H23]. apply app_eq_nil in H23 as [H2 H3].
    repeat split.
    + intros Hin. by rewrite (bool_decide_eq_true_2 _ Hin) in H1.
    + intros Hin. by rewrite (bool_decide_eq_true_2 _ Hin) in H2.
    + destruct (cropMismatch m); [discriminate H3 | reflexivity].
  - intros (H1 & H2 & H3).
    rewrite (bool_decide_eq_false_2 _ H1), (bool_decide_eq_false_2 _ H2), H3.
    reflexivity.
Qed.

Lemma NoDup_map_snoc {A} (key : A -> string) (earlier : list A) (a : A) :
  NoDup (map key (earlier ++ [a]))
  <-> NoDup (map key earlier) /\ (key a ∉ map key earlier).
Proof.
  rewrite map_app. cbn. rewrite NoDup_app. split.
  - intros (Hnd & Hdisj & _). split; [assumption|].
    intros Hin. apply (Hdisj _ Hin). left.
  - intros [Hnd Hnotin]. split; [assumption|]. split.
    + intros x Hx Hx'. apply list_elem_of_singleton in Hx'. by subst.
    + apply NoDup_singleton.
Qed.

Lemma violationsFrom_nil (table earlier : list DiseaseMapping) :
  NoDup (map localLabel earlier) ->
  NoDup (map backendDiseaseName earlier) ->
  violationsFrom earlier table = []
  <-> NoDup (map localLabel (earlier ++ table))
      /\ NoDup (map backendDiseaseName (earlier ++ table))
      /\ Forall (fun m => cropMismatch m = false) table.
Proof.
  revert earlier. induction table as [|m table IH]; intros earlier HL HB.
  - cbn. rewrite app_nil_r. split; [intros _; by repeat split | done].
  - cbn [violationsFrom].
    replace (earlier ++ m :: table) with ((earlier ++ [m]) ++ table)
      by (by rewrite <- app_assoc).
    split.
    + intros H. apply app_eq_nil in H as [Hm Ht].
      apply violationsOf_nil in Hm as (H1 & H2 & H3).
      apply IH in Ht as (HL' & HB' & HF).
      * repeat split; [assumption | assumption | by constructor].
      * by apply NoDup_map_snoc.
      * by apply NoDup_map_snoc.
    + intros (HL' & HB' & HF).
      assert (HLs : NoDup (map localLabel (earlier ++ [m]))).
      { rewrite map_app in HL'. by apply NoDup_app in HL' as [? _]. }
      assert (HBs : NoDup (map backendDiseaseName (earlier ++ [m]))).
      { rewrite map_app in HB'. by apply NoDup_app in HB' as [? _]. }
      apply Forall_cons in HF as [Hm HF].
      assert (Hv : violationsOf earlier m = []).
      { apply violationsOf_nil.
        apply NoDup_map_snoc in HLs as [_ ?].
        apply NoDup_map_snoc in HBs as [_ ?]. by repeat split. }
      rewrite Hv. cbn. by apply IH.
Qed.

Lemma validateVisit_pushed (earlier : list DiseaseMapping) (st : ValidateState)
    (m : DiseaseMapping) :
  (forall x, x ∈ seenLocalLabels st <-> x ∈ map localLabel earlier) ->
  (forall x, x ∈ seenBackendNames st <-> x ∈ map backendDiseaseName earlier) ->
  pushed (validateVisit st m) = pushed st ++ violationsOf earlier m.
Proof.
  intros HL HB. unfold validateVisit, violationsOf. cbn [pushed].
  rewrite (bool_decide_ext _ _ (HL (localLabel m))).
  rewrite (bool_decide_ext _ _ (HB (backendDiseaseName m))).
  repeat case_bool_decide; destruct (cropMismatch m);
    rewrite ?app_nil_r, <- ?app_assoc; reflexivity.
Qed.

Lemma validate_fold_pushed (table earlier : list DiseaseMapping)
    (st : ValidateState) :
  (forall x, x ∈ seenLocalLabels st <-> x ∈ map localLabel earlier) ->
  (forall x, x ∈ seenBackendNames st <-> x ∈ map backendDiseaseName earlier) ->
  pushed (foldl validateVisit st table) = pushed st ++ violationsFrom earlier table.
Proof.
  revert earlier st. induction table as [|m table IH]; intros earlier st HL HB.
  - cbn. by rewrite app_nil_r.
  - cbn [foldl violationsFrom].
    rewrite (IH (earlier ++ [m])).
    + rewrite (validateVisit_pushed earlier st m HL HB). by rewrite app_assoc.
    + intros x. cbn. rewrite map_app, elem_of_app, elem_of_union, HL. cbn.
      rewrite elem_of_singleton, list_elem_of_singleton. tauto.
    + intros x. cbn. rewrite map_app, elem_of_app, elem_of_union, HB. cbn.
      rewrite elem_of_singleton, list_elem_of_singleton. tauto.
Qed.

(** The errors of [validateMappings] are the violations, record by record. *)
Lemma validateMappings_errors (table : list DiseaseMapping) :
  errors (validateMappings table) = violationsFrom [] table.
Proof.
  unfold validateMappings. cbn [errors].
  rewrite (validate_fold_pushed table []); [reflexivity | |];
    intros x; cbn; split; intros H; contradict H;
      first [ apply not_elem_of_empty | apply not_elem_of_nil ].
Qed.

Lemma validation_true_nil (es : list string) :
  mkValidation (length es =? 0) es = mkValidation true [] <-> es = [].
Proof.
  split.
  - intros H. by injection H.
  - intros ->. reflexivity.
Qed.

Lemma foldl_push {A} (good : A -> bool) (msg : A -> string) (l : list A)
    (e : list string) :
  foldl (fun errs x => if good x then errs else errs ++ [msg x]) e l
  = e ++ map msg (List.filter (fun x => negb (good x)) l).
Proof.
  revert e. induction l as [|x l IH]; intros e; cbn.
  - by rewrite app_nil_r.
  - rewrite IH. destruct (good x); cbn; [reflexivity|].
    by rewrite <- app_assoc.
Qed.

Lemma validateModelCoverage_errors (labels : list string)
    (table : list DiseaseMapping) :
  errors (validateModelCoverage labels table)
  = map (fun label => "Missing mapping for model label: " +:+ label)
        (List.filter
           (fun label => negb (bool_decide (label ∈ map localLabel table)))
           labels)
    ++ map (fun m => "Mapping exists for non-existent model label: "
                     +:+ localLabel m)
           (List.filter
              (fun m => negb (bool_decide (localLabel m ∈ labels))) table).
Proof.
  unfold validateModelCoverage. cbn [errors].
  rewrite (foldl_push (fun m => bool_decide (localLabel m ∈ labels))
             (fun m => "Mapping exists for non-existent model label: "
                       +:+ localLabel m)).
  rewrite (foldl_push
             (fun label =>
                bool_decide (label ∈ (list_to_set (map localLabel table) : gset string)))
             (fun label => "Missing mapping for model label: " +:+ label)).
  cbn. f_equal. f_equal. apply filter_ext. intros label. f_equal.
  apply bool_decide_ext. apply elem_of_list_to_set.
Qed.

Lemma filter_nil_iff {A} (f : A -> bool) (l : list A) :
  List.filter f l = [] <-> (forall x, x ∈ l -> f x = false).
Proof.
  induction l as [|a l IH]; cbn.
  - split; [intros _ x Hx; by apply elem_of_nil in Hx | done].
  - destruct (f a) eqn:Hfa; split.
    + discriminate.
    + intros H. specialize (H a (list_elem_of_here _ _)). congruence.
    + intros H x Hx. apply elem_of_cons in Hx as [->|Hx]; [done|].
      by apply IH.
    + intros H. apply IH. intros x Hx. apply H. by right.
Qed.

Lemma validateModelCoverage_valid (labels : list string)
    (table : list DiseaseMapping) :
  validateModelCoverage labels table = mkValidation true []
  <-> (forall label, label ∈ labels -> label ∈ map localLabel table)
      /\ (forall m, m ∈ table -> localLabel m ∈ labels).
Proof.
  pose proof (validateModelCoverage_errors labels table) as Herr.
  unfold validateModelCoverage in *. cbn [errors] in Herr.
  rewrite validation_true_nil, Herr. split.
  - intros H. apply app_eq_nil in H as [H1 H2].
    apply map_eq_nil in H1. apply map_eq_nil in H2.
    rewrite filter_nil_iff in H1. rewrite filter_nil_iff in H2. split.
    + intros label Hl. specialize (H1 label Hl).
      apply negb_false_iff in H1. by apply bool_decide_eq_true in H1.
    + intros m Hm. specialize (H2 m Hm).
      apply negb_false_iff in H2. by apply bool_decide_eq_true in H2.
  - intros [H1 H2].
    assert (Hf1 : List.filter
              (fun label => negb (bool_decide (label ∈ map localLabel table)))
              labels = []).
    { apply filter_nil_iff. intros label Hl. apply negb_false_iff.
      apply bool_decide_eq_true. by apply H1. }
    assert (Hf2 : List.filter
              (fun m => negb (bool_decide (localLabel m ∈ labels))) table = []).
    { apply filter_nil_iff. intros m Hm. apply negb_false_iff.
      apply bool_decide_eq_true. by apply H2. }
    by rewrite Hf1, Hf2.
Qed.

Lemma validateModelCoverage_missing (labels : list string)
    (table : list DiseaseMapping) (label : string) :
  label ∈ labels ->
  label ∉ map localLabel table ->
  valid (validateModelCoverage labels table) = false
  /\ ("Missing mapping for model label: " +:+ label)
       ∈ errors (validateModelCoverage labels table).
Proof.
  intros Hin Hnot.
  assert (Hmem : ("Missing mapping for model label: " +:+ label)
                   ∈ errors (validateModelCoverage labels table)).
  { rewrite validateModelCoverage_errors. apply elem_of_app. left.
    apply list_elem_of_In.
    apply (in_map (fun l => "Missing mapping for model label: " +:+ l)).
    apply filter_In. split; [by apply list_elem_of_In|].
    apply negb_true_iff. by apply bool_decide_eq_false. }
  split; [|exact Hmem].
  unfold validateModelCoverage in *. cbn [valid errors] in *.
  match goal with |- (length ?es =? 0) = false => destruct es end;
    [by apply elem_of_nil in Hmem | reflexivity].
Qed.

Lemma cropMismatch_false (m : DiseaseMapping) :
  cropMismatch m = false
  <-> JsString.includes (expectedCrop m) (actualCrop m) = true
      \/ JsString.includes (actualCrop m) (expectedCrop m) = true.
Proof.
  unfold cropMismatch.
  destruct (JsString.includes (expectedCrop m) (actualCrop m)),
           (JsString.includes (actualCrop m) (expectedCrop m)); cbn;
    intuition discriminate.
Qed.

(** C6, as the code has it. [validateMappings] answers valid with no error
    exactly when no local label and no backend name is repeated and, for
    every record, the lower-cased label prefix contains the crop type's
    value or the crop type's value contains the lower-cased label prefix
    (one of the two is enough); each violation is one error string, and it
    does not look at the label table. The coverage of the label table is
    the separate [validateModelCoverage]: valid with no error exactly when
    every label has a record and every record's label is in the table; a
    label without a record makes it invalid with an error that names the
    label. *)
Theorem validation_in_two_functions :
  (forall table : list DiseaseMapping,
      validateMappings table = mkValidation true []
      <-> NoDup (map localLabel table)
          /\ NoDup (map backendDiseaseName table)
          /\ Forall (fun m =>
                       JsString.includes
                         (JsString.toLowerCase
                            (JsString.splitHead " - " (localLabel m)))
                         (JsString.toLowerCase (cropTypeValue (cropType m)))
                       = true
                       \/ JsString.includes
                            (JsString.toLowerCase (cropTypeValue (cropType m)))
                            (JsString.toLowerCase
                               (JsString.splitHead " - " (localLabel m)))
                          = true)
                    table)
  /\ (forall table : list DiseaseMapping,
         errors (validateMappings table) = violationsFrom [] table
         /\ valid (validateMappings table)
            = (length (errors (validateMappings table)) =? 0))
  /\ (forall (labels : list string) (table : list DiseaseMapping),
         validateModelCoverage labels table = mkValidation true []
         <-> (forall label, label ∈ labels -> label ∈ map localLabel table)
             /\ (forall m, m ∈ table -> localLabel m ∈ labels))
  /\ (forall (labels : list string) (table : list DiseaseMapping) (label : string),
         label ∈ labels ->
         label ∉ map localLabel table ->
         valid (validateModelCoverage labels table) = false
         /\ ("Missing mapping for model label: " +:+ label)
              ∈ errors (validateModelCoverage labels table)).
Proof.
  split; [|split; [|split]].
  - intros table.
    pose proof (validateMappings_errors table) as Herr.
    unfold validateMappings in *. cbn [errors] in Herr.
    rewrite validation_true_nil, Herr.
    assert (Hcrop : Forall (fun m => cropMismatch m = false) table
                    <-> Forall (fun m =>
                                  JsString.includes (expectedCrop m) (actualCrop m)
                                  = true
                                  \/ JsString.includes (actualCrop m)
                                                       (expectedCrop m)
                                     = true) table).
    { rewrite !Forall_forall. split; intros H m Hm;
        apply cropMismatch_false, H, Hm. }
    unfold expectedCrop, actualCrop in Hcrop. rewrite <- Hcrop.
    apply (violationsFrom_nil table []); cbn; apply NoDup_nil_2.
  - intros table. split; [apply validateMappings_errors | reflexivity].
  - apply validateModelCoverage_valid.
  - apply validateModelCoverage_missing.
Qed.

Lemma validation_in_two_functions_witness :
  validateMappings oneRecordTable = mkValidation true []
  /\ valid (validateModelCoverage twoLabels oneRecordTable) = false
  /\ "Missing mapping for model label: Cashew - Gumosis"
       ∈ errors (validateModelCoverage twoLabels oneRecordTable).
Proof.
  split.
  - apply (proj1 validation_in_two_functions oneRecordTable).
    repeat split.
    + apply NoDup_singleton.
    + apply NoDup_singleton.
    + repeat constructor.
  - apply (proj2 (proj2 (proj2 validation_in_two_functions))
             twoLabels oneRecordTable "Cashew - Gumosis").
    + apply list_elem_of_further, list_elem_of_here.
    + cbn. intros H. apply list_elem_of_singleton in H. discriminate H.
Defined.

(** C6, as the specification states it, fails twice. A table that lacks a
    record for one of the labels, and is otherwise in order, passes
    [validateMappings] with no error: the label table is not looked at. And
    a record with the label "a - Rot" and the crop cashew passes it too: the
    prefix "a" is no crop, but "cashew" contains it. *)
Lemma validateMappings_passes_uncovered_and_loose_prefix :
  ("Cashew - Gumosis" ∈ twoLabels
   /\ ("Cashew - Gumosis" ∉ map localLabel oneRecordTable)
   /\ validateMappings oneRecordTable = mkValidation true [])
  /\ (map expectedCrop loosePrefixTable = ["a"]
      /\ map actualCrop loosePrefixTable = ["cashew"]
      /\ validateMappings loosePrefixTable = mkValidation true []).
Proof.
  split.
  - split; [apply list_elem_of_further, list_elem_of_here|].
    split; [|vm_compute; reflexivity].
    cbn. intros H. apply list_elem_of_singleton in H. discriminate H.
  - repeat split; vm_compute; reflexivity.
Qed.

(** ** Inference engine *)

(** *** Score reconciliation *)

Lemma squeeze_values (t : Tensor) (w : World) :
  exists s w', squeeze t w = (Ok s, w') /\ values s = values t
               /\ shape s = filter (fun d => d ≠ 1) (shape t)
               /\ tid s = nextId w.
Proof. eexists _, _. split; [reflexivity|]. by repeat split. Qed.

Lemma reconcileScores_exact (prediction : Tensor) (w : World) :
  length (values prediction) = expectedClasses ->
  reconcileScores prediction w = (Ok (prediction, values prediction), w).
Proof.
  intros Hlen. unfold reconcileScores, tryCatch.
  apply Nat.eqb_eq in Hlen. by rewrite Hlen.
Qed.

Lemma reconcileScores_longer (prediction : Tensor) (w : World) :
  expectedClasses < length (values prediction) ->
  exists processed w',
    reconcileScores prediction w
    = (Ok (processed, take expectedClasses (values prediction)), w')
    /\ values processed = values prediction.
Proof.
  intros Hlen. unfold reconcileScores, tryCatch, bind.
  assert (Hne : (length (values prediction) =? expectedClasses) = false)
    by (apply Nat.eqb_neq; lia).
  rewrite Hne.
  apply Nat.ltb_lt in Hlen.
  destruct (1 <? length (shape prediction));
    unfold squeeze, newTensor, ret; cbn [fst snd values];
    rewrite Hlen; eexists _, _; by split.
Qed.

Lemma reconcileScores_shorter (prediction : Tensor) (w : World) :
  length (values prediction) < expectedClasses ->
  exists w',
    reconcileScores prediction w
    = (Throw (InsufficientOutputClasses (length (values prediction))), w').
Proof.
  intros Hlen. unfold reconcileScores, tryCatch, bind.
  assert (Hne : (length (values prediction) =? expectedClasses) = false)
    by (apply Nat.eqb_neq; lia).
  assert (Hnl : (expectedClasses <? length (values prediction)) = false)
    by (apply Nat.ltb_ge; lia).
  apply Nat.ltb_lt in Hlen.
  rewrite Hne.
  destruct (1 <? length (shape prediction));
    unfold squeeze, newTensor, ret, throw; cbn [fst snd values];
    rewrite Hnl, Hlen; eexists; reflexivity.
Qed.

(** With too few scores [predictImage] ends in its [catch]. *)
Lemma predictImage_shorter (E : Env) (labels : list string) (uri : string)
    (m : GraphModel) (w w1 w2 : World) (tensor prediction : Tensor) :
  imageToTensor E uri w = (Ok tensor, w1) ->
  predict m tensor w1 = (Ok prediction, w2) ->
  length (values prediction) < expectedClasses ->
  exists w3, predictImage E labels uri (Some m) w = (Ok None, w3).
Proof.
  intros Himg Hpred Hlen.
  destruct (reconcileScores_shorter prediction w2 Hlen) as [w3 Hrec].
  exists w3. unfold predictImage, tryCatch, bind.
  by rewrite Himg, Hpred, Hrec.
Qed.

(** C3. Reconciliation of the raw scores: 22 values are kept as they are, of
    more than 22 the first 22 are kept in their order, and fewer than 22 end
    the reconciliation with the insufficient-output-classes error, on which
    [predictImage] gives no result. Squeezing changes no value, so the
    length after it is the length of the raw output. *)
Theorem reconcileScores_three_cases :
  (forall (prediction : Tensor) (w : World),
      length (values prediction) = 22 ->
      reconcileScores prediction w = (Ok (prediction, values prediction), w))
  /\ (forall (prediction : Tensor) (w : World) (k : nat),
         0 < k ->
         length (values prediction) = 22 + k ->
         exists processed w',
           reconcileScores prediction w
           = (Ok (processed, take 22 (values prediction)), w'))
  /\ (forall (prediction : Tensor) (w : World),
         length (values prediction) < 22 ->
         exists w',
           reconcileScores prediction w
           = (Throw (InsufficientOutputClasses (length (values prediction))), w'))
  /\ (forall (E : Env) (labels : list string) (uri : string) (m : GraphModel)
             (w w1 w2 : World) (tensor prediction : Tensor),
         imageToTensor E uri w = (Ok tensor, w1) ->
         predict m tensor w1 = (Ok prediction, w2) ->
         length (values prediction) < 22 ->
         exists w3, predictImage E labels uri (Some m) w = (Ok None, w3)).
Proof.
  split; [|split; [|split]].
  - apply reconcileScores_exact.
  - intros prediction w k Hk Hlen.
    destruct (reconcileScores_longer prediction w) as (p & w' & H & _).
    + unfold expectedClasses. lia.
    + by exists p, w'.
  - apply reconcileScores_shorter.
  - apply predictImage_shorter.
Qed.

(** *** [predictImage] and its caller *)

Lemma predictImage_returns (E : Env) (labels : list string) (uri : string)
    (model : option GraphModel) (w : World) :
  exists r w', predictImage E labels uri model w = (Ok r, w').
Proof.
  unfold predictImage. destruct model as [m|].
  - unfold tryCatch.
    match goal with |- context [match ?c w with _ => _ end] =>
      destruct (c w) as [[r|e] w'] end; eexists _, _; reflexivity.
  - eexists _, _. reflexivity.
Qed.

Lemma predictImage_image_failure (E : Env) (labels : list string) (uri : string)
    (m : GraphModel) (w w1 : World) (e : JsError) :
  imageToTensor E uri w = (Throw e, w1) ->
  predictImage E labels uri (Some m) w = (Ok None, w1).
Proof. intros H. unfold predictImage, tryCatch, bind. by rewrite H. Qed.

Lemma predictImage_forward_failure (E : Env) (labels : list string)
    (uri : string) (m : GraphModel) (w w1 w2 : World) (tensor : Tensor)
    (e : JsError) :
  imageToTensor E uri w = (Ok tensor, w1) ->
  predict m tensor w1 = (Throw e, w2) ->
  predictImage E labels uri (Some m) w = (Ok None, w2).
Proof. intros H1 H2. unfold predictImage, tryCatch, bind. by rewrite H1, H2. Qed.

Lemma predictImage_reconcile_failure (E : Env) (labels : list string)
    (uri : string) (m : GraphModel) (w w1 w2 w3 : World)
    (tensor prediction : Tensor) (e : JsError) :
  imageToTensor E uri w = (Ok tensor, w1) ->
  predict m tensor w1 = (Ok prediction, w2) ->
  reconcileScores prediction w2 = (Throw e, w3) ->
  predictImage E labels uri (Some m) w = (Ok None, w3).
Proof.
  intros H1 H2 H3. unfold predictImage, tryCatch, bind. by rewrite H1, H2, H3.
Qed.

(** C10. [predictImage] never throws: it returns, and it returns [null]
    without a model, when the image cannot be turned into a tensor, when the
    forward pass throws and when the reconciliation throws; so [null] alone
    does not tell a missing model from a failure. *)
Theorem predictImage_never_throws :
  (forall (E : Env) (labels : list string) (uri : string)
          (model : option GraphModel) (w : World),
      exists r w', predictImage E labels uri model w = (Ok r, w'))
  /\ (forall (E : Env) (labels : list string) (uri : string) (w : World),
         predictImage E labels uri None w = (Ok None, w))
  /\ (forall (E : Env) (labels : list string) (uri : string) (m : GraphModel)
             (w w1 : World) (e : JsError),
         imageToTensor E uri w = (Throw e, w1) ->
         predictImage E labels uri (Some m) w = (Ok None, w1))
  /\ (forall (E : Env) (labels : list string) (uri : string) (m : GraphModel)
             (w w1 w2 : World) (tensor : Tensor) (e : JsError),
         imageToTensor E uri w = (Ok tensor, w1) ->
         predict m tensor w1 = (Throw e, w2) ->
         predictImage E labels uri (Some m) w = (Ok None, w2))
  /\ (forall (E : Env) (labels : list string) (uri : string) (m : GraphModel)
             (w w1 w2 w3 : World) (tensor prediction : Tensor) (e : JsError),
         imageToTensor E uri w = (Ok tensor, w1) ->
         predict m tensor w1 = (Ok prediction, w2) ->
         reconcileScores prediction w2 = (Throw e, w3) ->
         predictImage E labels uri (Some m) w = (Ok None, w3)).
Proof.
  split; [apply predictImage_returns|].
  split; [reflexivity|].
  split; [apply predictImage_image_failure|].
  split; [apply predictImage_forward_failure | apply predictImage_reconcile_failure].
Qed.

(** The same [null] from a missing model and from a missing photo. *)
Lemma predictImage_never_throws_witness :
  fst (predictImage envMissingFile labels22 "file:///nowhere.jpg" None world0)
  = Ok None
  /\ fst (predictImage envMissingFile labels22 "file:///nowhere.jpg"
                       (Some model22) world0)
     = Ok None.
Proof.
  split.
  - by rewrite (proj1 (proj2 predictImage_never_throws)).
  - erewrite (proj1 (proj2 (proj2 predictImage_never_throws))).
    + reflexivity.
    + lazy. reflexivity.
Defined.

(** C2. The class index is not always the position of the maximum of the 22
    reconciled scores: [argMax] is called on the tensor before the scores
    are trimmed. On a raw output of 30 values whose maximum among the first
    22 is at index 5, and whose value at index 25 is greater, the class
    index is 25, and the confidence and the label, read at index 25 of 22
    scores and of 22 labels, are undefined. *)
Theorem predictImage_argMax_before_trim :
  match fst (predictImage (envBlackPhoto model30) labels22 "file:///photo.jpg"
                          (Some model30) world0) with
  | Ok (Some r) =>
      classIndex r = Some 25
      /\ confidence r = None
      /\ label r = None
      /\ allScores r = take 22 scores30
      /\ argMaxRow (allScores r) = 5
  | _ => False
  end.
Proof. vm_compute. repeat split. Qed.

(** With exactly 22 values the class index is the arg-max of the scores. *)
Example predictImage_22_values :
  match fst (predictImage (envBlackPhoto model22) labels22 "file:///photo.jpg"
                          (Some model22) world0) with
  | Ok (Some r) =>
      classIndex r = Some 5
      /\ confidence r = Some (Fin (9 # 10))
      /\ label r = Some "Cassava - Bacterial Blight"
      /\ allScores r = scores22
  | _ => False
  end.
Proof. vm_compute. repeat split. Qed.

(** C4. Tensors stay live after [predictImage]: when the model gives fewer
    than 22 values the call returns [null] through its [catch], and the
    input tensor (2), the raw output (3) and the squeezed output (4) are not
    disposed; nor is the tensor (1) that [expandDims] made on the way. *)
Theorem predictImage_leaves_tensors_live :
  fst (predictImage (envBlackPhoto model10) labels22 "file:///photo.jpg"
                    (Some model10) world0) = Ok None
  /\ elements (live (snd (predictImage (envBlackPhoto model10) labels22
                                       "file:///photo.jpg" (Some model10) world0)))
     ≡ₚ [1; 2; 3; 4]
  /\ trace (snd (predictImage (envBlackPhoto model10) labels22
                              "file:///photo.jpg" (Some model10) world0))
     = [ EvManipulate "file:///photo.jpg" 1;
         EvTensor OpDecodeJpeg 0; EvTensor OpExpandDims 1; EvTensor OpDiv 2;
         EvDispose 0; EvTensor OpPredict 3; EvTensor OpSqueeze 4 ].
Proof.
  split; [vm_compute; reflexivity|].
  split; [|vm_compute; reflexivity].
  vm_compute.
  match goal with |- ?l ≡ₚ _ => change l with [4; 2; 3; 1] end.
  apply (bool_decide_unpack _). vm_compute. exact I.
Qed.

(** ** Computations that keep a relation between the worlds

    A relation between the world before and the world after that is
    reflexive and transitive and that every primitive step keeps is kept by
    every computation built from the steps. *)

Section Keeps.
Variable R : World -> World -> Prop.
Hypothesis R_refl : forall w, R w w.
Hypothesis R_trans : forall w1 w2 w3, R w1 w2 -> R w2 w3 -> R w1 w3.

Lemma keeps_ret {A} (a : A) : keeps R (ret a).
Proof. intros w. apply R_refl. Qed.

Lemma keeps_throw {A} (e : JsError) : keeps R (@throw A e).
Proof. intros w. apply R_refl. Qed.

Lemma keeps_fromResult {A} (r : JsError + A) : keeps R (fromResult r).
Proof. destruct r; [apply keeps_throw | apply keeps_ret]. Qed.

Lemma keeps_bind {A B} (m : M A) (k : A -> M B) :
  keeps R m -> (forall a, keeps R (k a)) -> keeps R (bind m k).
Proof.
  intros Hm Hk w. unfold bind. specialize (Hm w).
  destruct (m w) as [[a|e] w1]; cbn in *; [|assumption].
  eapply R_trans; [exact Hm | apply Hk].
Qed.

Lemma keeps_tryCatch {A} (m : M A) (handler : JsError -> M A) :
  keeps R m -> (forall e, keeps R (handler e)) -> keeps R (tryCatch m handler).
Proof.
  intros Hm Hh w. unfold tryCatch. specialize (Hm w).
  destruct (m w) as [[a|e] w1]; cbn in *; [assumption|].
  eapply R_trans; [exact Hm | apply Hh].
Qed.
End Keeps.

(** A [catch] that returns makes the whole [try] return. *)
Lemma tryCatch_returns {A} (m : M A) (a0 : A) (w : World) :
  exists a, tryCatch m (fun _ => ret a0) w = (Ok a, snd (m w)).
Proof.
  unfold tryCatch, ret. destruct (m w) as [[a|e] w1]; eexists; reflexivity.
Qed.

(** One step of the proof that a computation keeps a relation: through the
    structure of the computation, case by case at a branch. *)
Ltac keeps_step :=
  first
    [ apply keeps_ret; assumption
    | apply keeps_throw; assumption
    | apply keeps_fromResult; assumption
    | apply keeps_bind; [assumption | | intros ?]
    | apply keeps_tryCatch; [assumption | | intros ?]
    | match goal with
      | |- keeps _ (if ?c then _ else _) => destruct c
      | |- keeps _ (match ?x with _ => _ end) => destruct x
      end ].

(** ** Model loader *)

Lemma sameHook_refl (w : World) : sameHook w w.
Proof. reflexivity. Qed.

Lemma sameHook_trans (w1 w2 w3 : World) :
  sameHook w1 w2 -> sameHook w2 w3 -> sameHook w1 w3.
Proof. unfold sameHook. congruence. Qed.

Lemma newTensor_sameHook (op : TfOp) (sh : list nat) (vs : list JsNumber) :
  keeps sameHook (newTensor op sh vs).
Proof. intros w. reflexivity. Qed.

Lemma dispose_sameHook (t : Tensor) : keeps sameHook (dispose t).
Proof. intros w. reflexivity. Qed.

Lemma emit_sameHook (ev : Event) : keeps sameHook (emit ev).
Proof. intros w. reflexivity. Qed.

Ltac sameHook_tac :=
  pose proof sameHook_refl; pose proof sameHook_trans;
  repeat first
    [ apply newTensor_sameHook
    | apply dispose_sameHook
    | apply emit_sameHook
    | keeps_step ].

Lemma predict_sameHook (m : GraphModel) (input : Tensor) :
  keeps sameHook (predict m input).
Proof. unfold predict. sameHook_tac. Qed.

(** The smoke test never throws and leaves the hook's state alone. *)
Lemma testModelPrediction_returns (E : Env) (m : GraphModel) (w : World) :
  exists b w', testModelPrediction E m w = (Ok b, w') /\ hook w' = hook w.
Proof.
  unfold testModelPrediction.
  match goal with |- context [tryCatch ?body _ w] =>
    destruct (tryCatch_returns body true w) as [b Hb];
    assert (Hk : keeps sameHook body)
  end.
  { pose proof predict_sameHook.
    unfold squeeze. sameHook_tac. }
  exists b. eexists. split; [exact Hb | apply Hk].
Qed.

Lemma load_hook (E : Env) (w : World) :
  exists w',
    load E w = (Ok tt, w')
    /\ hook w' =
       match tfReady E with
       | inl e => failedHook (hook w) (loadErrorMessage e)
       | inr _ =>
           match loadGraphModel E with
           | inl e => failedHook (hook w) (loadErrorMessage e)
           | inr m =>
               if validateModel m then readyHook m
               else failedHook (hook w) "Model validation failed"
           end
       end.
Proof.
  unfold load, tryCatch, bind, fromResult.
  destruct (tfReady E) as [e | u]; cbn; [eexists; by split|].
  destruct (loadGraphModel E) as [e|m]; cbn; [eexists; by split|].
  destruct (validateModel m); cbn; [|eexists; by split].
  match goal with |- context [testModelPrediction E m ?w0] =>
    destruct (testModelPrediction_returns E m w0) as (b & w1 & Ht & Hh);
    rewrite Ht
  end.
  cbn. eexists. by split.
Qed.

Lemma validateModel_false (m : GraphModel) :
  validateModel m = false
  <-> inputs m = None \/ inputs m = Some []
      \/ outputs m = None \/ outputs m = Some []
      \/ exists rest, outputs m = Some (mkTensorInfo (Some []) :: rest).
Proof.
  unfold validateModel.
  destruct (inputs m) as [[|i ins]|];
    [split; [intros _; auto | reflexivity] |
    |split; [intros _; auto | reflexivity]].
  destruct (outputs m) as [[|[[[|d ds]|]] os]|]; cbn;
    (split;
     [ first [ discriminate | intros _; eauto 8 ]
     | first [ reflexivity
             | intros [H|[H|[H|[H|[rest H]]]]]; congruence ] ]).
Qed.

(** C9. [load] ends with the hook ready, its error cleared and the model
    exposed whenever the runtime started, the model was assembled and the
    structural validation passed, whatever the forward pass of the smoke
    test does; it ends not ready, with the error message recorded, exactly
    when one of those three failed, and the validation fails only for a
    model with no inputs, no outputs or an output of rank 0. *)
Theorem load_ready_whatever_the_smoke_test :
  (forall (E : Env) (w : World),
      exists w',
        load E w = (Ok tt, w')
        /\ hook w' =
           match tfReady E with
           | inl e => failedHook (hook w) (loadErrorMessage e)
           | inr _ =>
               match loadGraphModel E with
               | inl e => failedHook (hook w) (loadErrorMessage e)
               | inr m =>
                   if validateModel m then readyHook m
                   else failedHook (hook w) "Model validation failed"
               end
           end)
  /\ (forall (E : Env) (m : GraphModel) (w : World),
         exists passed w',
           testModelPrediction E m w = (Ok passed, w') /\ hook w' = hook w)
  /\ (forall m : GraphModel,
         validateModel m = false
         <-> inputs m = None \/ inputs m = Some []
             \/ outputs m = None \/ outputs m = Some []
             \/ exists rest, outputs m = Some (mkTensorInfo (Some []) :: rest)).
Proof.
  split; [apply load_hook|].
  split; [apply testModelPrediction_returns | apply validateModel_false].
Qed.

(** A smoke test that fails (10 output values) and one whose forward pass
    throws: the hook is ready after both. *)
Example load_after_failed_smoke_test :
  fst (testModelPrediction (envBlackPhoto model10) model10 world0) = Ok false
  /\ hook (snd (load (envBlackPhoto model10) world0)) = readyHook model10
  /\ fst (testModelPrediction (envBlackPhoto modelThrowing) modelThrowing world0)
     = Ok true
  /\ hook (snd (load (envBlackPhoto modelThrowing) world0))
     = readyHook modelThrowing.
Proof. repeat split. Qed.

Example load_after_failed_assembly :
  hook (snd (load envMissingFile world0))
  = mkHookState None false (Some "Failed to load model") "Failed".
Proof. reflexivity. Qed.

(** ** Image normaliser *)

(** *** Retries and the fall back *)

(** A [catch] that throws what it caught changes nothing. *)
Lemma tryCatch_rethrow {A} (m : M A) (w : World) :
  tryCatch m (fun error => throw error) w = m w.
Proof. unfold tryCatch, throw. by destruct (m w) as [[a|e] w1]. Qed.

Lemma withEvents_app (w : World) (evs evs' : list Event) :
  withEvents (withEvents w evs) evs' = withEvents w (evs ++ evs').
Proof. unfold withEvents. cbn. by rewrite <- app_assoc. Qed.

Lemma emit_withEvents (ev : Event) (w : World) :
  emit ev w = (Ok tt, withEvents w [ev]).
Proof. reflexivity. Qed.

(** Three failed attempts: the loop is left through the fall back, after
    waits of 200 and 400 milliseconds. *)
Lemma retryLoop_all_fail (E : Env) (uri : string) (w : World) :
  (forall k, 1 <= k <= 3 -> exists e, manipulateAsync E uri k = inl e) ->
  retryLoop E uri maxRetries 0 w
  = bind (processImageAlternative E uri) (fun t => ret (LoopReturned t))
         (withEvents w (threeAttempts uri)).
Proof.
  intros Hfail.
  destruct (Hfail 1 ltac:(lia)) as [e1 H1].
  destruct (Hfail 2 ltac:(lia)) as [e2 H2].
  destruct (Hfail 3 ltac:(lia)) as [e3 H3].
  unfold maxRetries. cbn [retryLoop].
  unfold bind at 1. rewrite emit_withEvents. cbn [Nat.add]. rewrite H1.
  cbn [maxRetries Nat.leb]. unfold sleep.
  unfold bind at 1. rewrite emit_withEvents.
  unfold bind at 1. rewrite emit_withEvents. cbn [Nat.add]. rewrite H2.
  cbn [Nat.leb].
  unfold bind at 1. rewrite emit_withEvents.
  unfold bind at 1. rewrite emit_withEvents. cbn [Nat.add]. rewrite H3.
  cbn [Nat.leb].
  rewrite !withEvents_app. reflexivity.
Qed.

Lemma imageToTensor_primary (E : Env) (uri : string) (w : World) :
  JsString.trimIsEmpty uri = false ->
  isPermanentFile uri = false ->
  imageToTensor E uri w
  = bind (retryLoop E uri maxRetries 0)
         (fun exit =>
            match exit with
            | LoopReturned t => ret t
            | LoopDone resized =>
                match resized with
                | Some (Some base64) =>
                    if bool_decide (base64 = "") then throw NoBase64
                    else
                      imageTensor <- decodeBase64Jpeg E base64 ;;
                      finishPrimary imageTensor
                | _ => throw NoBase64
                end
            end)
         (withEvents w (cameraDelay uri)).
Proof.
  intros Hblank Hperm. unfold imageToTensor. rewrite tryCatch_rethrow.
  rewrite Hblank, Hperm. unfold cameraDelay.
  destruct (JsString.includes uri "Camera/").
  - unfold bind at 1. unfold sleep. rewrite emit_withEvents. reflexivity.
  - unfold bind at 1. unfold ret at 1. unfold withEvents.
    rewrite app_nil_r. by destruct w.
Qed.

(** The fall back is the whole of the call once the three attempts failed. *)
Lemma imageToTensor_falls_back (E : Env) (uri : string) (w : World) :
  JsString.trimIsEmpty uri = false ->
  isPermanentFile uri = false ->
  (forall k, 1 <= k <= 3 -> exists e, manipulateAsync E uri k = inl e) ->
  imageToTensor E uri w
  = processImageAlternative E uri
      (withEvents w (cameraDelay uri ++ threeAttempts uri)).
Proof.
  intros Hblank Hperm Hfail.
  rewrite (imageToTensor_primary E uri w Hblank Hperm).
  unfold bind at 1. rewrite (retryLoop_all_fail E uri _ Hfail).
  rewrite withEvents_app. unfold bind, ret.
  by destruct (processImageAlternative E uri _) as [[t|e] w1].
Qed.

(** The file cannot be read: the fall back throws before it makes a tensor. *)
Lemma processImageAlternative_unreadable (E : Env) (uri : string) (w : World)
    (e : JsError) :
  readAsStringAsync E uri = inl e ->
  processImageAlternative E uri w
  = (Throw (AllMethodsFailed (ReadFailed e)), withEvents w [EvReadFile uri]).
Proof.
  intros Hread. unfold processImageAlternative, tryCatch, bind.
  rewrite emit_withEvents, Hread. reflexivity.
Qed.

(** *** Bounds on the attempts and on the reads, on every path *)

Lemma countEvents_app (p : Event -> bool) (l l' : list Event) :
  countEvents p (l ++ l') = countEvents p l + countEvents p l'.
Proof. unfold countEvents. by rewrite List.filter_app, length_app. Qed.

Lemma within_refl (w : World) : within 0 0 w w.
Proof. exists []. by rewrite app_nil_r. Qed.

Lemma within_trans (a b c d : nat) (w1 w2 w3 : World) :
  within a b w1 w2 -> within c d w2 w3 -> within (a + c) (b + d) w1 w3.
Proof.
  intros (l & Hl & Ha & Hb) (l' & Hl' & Hc & Hd). exists (l ++ l').
  rewrite Hl', Hl, <- app_assoc, !countEvents_app. repeat split; lia.
Qed.

Lemma within_mono (a b a' b' : nat) (w w' : World) :
  a <= a' -> b <= b' -> within a b w w' -> within a' b' w w'.
Proof.
  intros Ha Hb (l & Hl & Hla & Hlb). exists l. repeat split; [done | lia | lia].
Qed.

Lemma within_00_trans (w1 w2 w3 : World) :
  within 0 0 w1 w2 -> within 0 0 w2 w3 -> within 0 0 w1 w3.
Proof. apply (within_trans 0 0 0 0). Qed.

Lemma keeps_within_mono {A} (a b a' b' : nat) (m : M A) :
  a <= a' -> b <= b' -> keeps (within a b) m -> keeps (within a' b') m.
Proof. intros Ha Hb Hm w. by apply (within_mono a b). Qed.

Lemma keeps_within_bind {A B} (a b c d : nat) (m : M A) (k : A -> M B) :
  keeps (within a b) m ->
  (forall x, keeps (within c d) (k x)) ->
  keeps (within (a + c) (b + d)) (bind m k).
Proof.
  intros Hm Hk w. unfold bind. specialize (Hm w).
  destruct (m w) as [[x|e] w1]; cbn in *.
  - eapply within_trans; [exact Hm | apply Hk].
  - apply (within_mono a b); [lia | lia | exact Hm].
Qed.

Lemma keeps_within_tryCatch {A} (a b c d : nat) (m : M A)
    (handler : JsError -> M A) :
  keeps (within a b) m ->
  (forall e, keeps (within c d) (handler e)) ->
  keeps (within (a + c) (b + d)) (tryCatch m handler).
Proof.
  intros Hm Hh w. unfold tryCatch. specialize (Hm w).
  destruct (m w) as [[x|e] w1]; cbn in *.
  - apply (within_mono a b); [lia | lia | exact Hm].
  - eapply within_trans; [exact Hm | apply Hh].
Qed.

Lemma emit_within (ev : Event) :
  keeps (within (if isManipulate ev then 1 else 0)
                (if isReadFile ev then 1 else 0)) (emit ev).
Proof.
  intros w. exists [ev]. split; [reflexivity|].
  unfold countEvents. cbn. by destruct (isManipulate ev), (isReadFile ev).
Qed.

Lemma newTensor_within (op : TfOp) (sh : list nat) (vs : list JsNumber) :
  keeps (within 0 0) (newTensor op sh vs).
Proof. intros w. exists [EvTensor op (nextId w)]. by repeat split. Qed.

Lemma dispose_within (t : Tensor) : keeps (within 0 0) (dispose t).
Proof. intros w. exists [EvDispose (tid t)]. by repeat split. Qed.

Lemma sleep_within (ms : nat) : keeps (within 0 0) (sleep ms).
Proof. apply (emit_within (EvSleep ms)). Qed.

(** Computations that make and dispose tensors, and nothing else, add no
    attempt and no read. *)
Ltac tensor_only :=
  pose proof within_refl; pose proof within_00_trans;
  repeat first
    [ apply newTensor_within
    | apply dispose_within
    | apply sleep_within
    | match goal with H : forall _, keeps (within 0 0) _ |- _ => apply H end
    | match goal with H : forall _ _, keeps (within 0 0) _ |- _ => apply H end
    | keeps_step ].

Lemma decodeBase64Jpeg_within (E : Env) (base64 : string) :
  keeps (within 0 0) (decodeBase64Jpeg E base64).
Proof. unfold decodeBase64Jpeg. tensor_only. Qed.

Lemma finishPrimary_within (t : Tensor) : keeps (within 0 0) (finishPrimary t).
Proof. unfold finishPrimary, expandDims0, divBy255. tensor_only. Qed.

Lemma finishAlternative_within (E : Env) (t : Tensor) :
  keeps (within 0 0) (finishAlternative E t).
Proof.
  unfold finishAlternative, resizeBilinear, expandDims0, divBy255. tensor_only.
Qed.

Lemma processImageAlternative_within (E : Env) (uri : string) :
  keeps (within 0 1) (processImageAlternative E uri).
Proof.
  unfold processImageAlternative.
  apply (keeps_within_tryCatch 0 1 0 0); [|intros e; tensor_only].
  apply (keeps_within_bind 0 1 0 0).
  - apply (keeps_within_tryCatch 0 1 0 0); [|intros e; tensor_only].
    apply (keeps_within_bind 0 1 0 0); [apply (emit_within (EvReadFile uri))|].
    intros _. tensor_only.
  - intros base64. pose proof (decodeBase64Jpeg_within E).
    pose proof (finishAlternative_within E). tensor_only.
Qed.

Lemma retryLoop_within (E : Env) (uri : string) (remaining retryCount : nat) :
  keeps (within remaining 1) (retryLoop E uri remaining retryCount).
Proof.
  revert retryCount. induction remaining as [|remaining IH]; intros retryCount.
  - cbn. apply (keeps_within_mono 0 0); [lia | lia | tensor_only].
  - cbn [retryLoop].
    apply (keeps_within_bind 1 0 remaining 1);
      [apply (emit_within (EvManipulate uri (retryCount + 1)))|].
    intros _. destruct (manipulateAsync E uri (retryCount + 1)) as [e|resized].
    + destruct (maxRetries <=? retryCount + 1).
      * apply (keeps_within_mono 0 1); [lia | lia |].
        apply (keeps_within_bind 0 1 0 0);
          [apply processImageAlternative_within | intros t; tensor_only].
      * apply (keeps_within_bind 0 0 remaining 1);
          [apply sleep_within | intros _; apply IH].
    + apply (keeps_within_mono 0 0); [lia | lia | tensor_only].
Qed.

(** On every path the primary pipeline is tried three times at most and the
    file is read directly once at most. *)
Lemma imageToTensor_within (E : Env) (uri : string) :
  keeps (within 3 1) (imageToTensor E uri).
Proof.
  unfold imageToTensor.
  apply (keeps_within_tryCatch 3 1 0 0); [|intros e; tensor_only].
  destruct (JsString.trimIsEmpty uri);
    [apply (keeps_within_mono 0 0); [lia | lia | tensor_only]|].
  destruct (isPermanentFile uri);
    [apply (keeps_within_mono 0 1);
     [lia | lia | apply processImageAlternative_within]|].
  apply (keeps_within_bind 0 0 3 1);
    [destruct (JsString.includes uri "Camera/"); tensor_only|].
  intros _.
  apply (keeps_within_bind 3 1 0 0); [apply retryLoop_within|].
  intros exit. pose proof (decodeBase64Jpeg_within E).
  pose proof finishPrimary_within. tensor_only.
Qed.

(** The fall back reads the file once, first of all, and never goes back to
    the primary pipeline. *)
Lemma processImageAlternative_reads_once (E : Env) (uri : string) (w : World) :
  exists rest,
    trace (snd (processImageAlternative E uri w))
    = trace w ++ EvReadFile uri :: rest
    /\ countEvents isManipulate rest = 0
    /\ countEvents isReadFile rest = 0.
Proof.
  assert (Hrest : keeps (within 0 0)
            (tryCatch
               (base64Data <-
                  tryCatch (fromResult (readAsStringAsync E uri))
                           (fun fsError => throw (ReadFailed fsError)) ;;
                imageTensor <- decodeBase64Jpeg E base64Data ;;
                finishAlternative E imageTensor)
               (fun error => throw (AllMethodsFailed error)))).
  { pose proof (decodeBase64Jpeg_within E).
    pose proof (finishAlternative_within E). tensor_only. }
  destruct (Hrest (withEvents w [EvReadFile uri])) as (rest & Htr & Hm & Hr).
  exists rest. split; [|split; lia].
  change (processImageAlternative E uri w) with
    (tryCatch
       (base64Data <-
          tryCatch (fromResult (readAsStringAsync E uri))
                   (fun fsError => throw (ReadFailed fsError)) ;;
        imageTensor <- decodeBase64Jpeg E base64Data ;;
        finishAlternative E imageTensor)
       (fun error => throw (AllMethodsFailed error))
       (withEvents w [EvReadFile uri])).
  rewrite Htr. cbn. by rewrite <- app_assoc.
Qed.

(** *** The resize of the fall back *)

Lemma validShape_inv (sh : list nat) :
  invalidImageShape sh = false -> exists h wd, sh = [h; wd; 3].
Proof.
  unfold invalidImageShape. intros H.
  apply orb_false_iff in H as [Hlen Hch].
  apply negb_false_iff, Nat.eqb_eq in Hlen.
  apply negb_false_iff, bool_decide_eq_true in Hch.
  destruct sh as [|h [|wd [|c [|d rest]]]]; try discriminate Hlen.
  cbn in Hch. injection Hch as ->. by exists h, wd.
Qed.

Lemma newEvents_app (w w' : World) (added : list Event) :
  trace w' = trace w ++ added -> newEvents w w' = added.
Proof. intros H. unfold newEvents. rewrite H. apply drop_app_length. Qed.


(** *** The shape check *)















(** *** The attempts, the fall back and the direct read *)

Lemma countEvents_failedAttempts (uri : string) (failed retryCount : nat) :
  countEvents isManipulate (failedAttempts uri failed retryCount) = failed
  /\ countEvents isReadFile (failedAttempts uri failed retryCount) = 0.
Proof.
  revert retryCount. induction failed as [|failed IH]; intros retryCount.
  - by split.
  - destruct (IH (retryCount + 1)) as [Hm Hr]. unfold countEvents in *.
    cbn. rewrite Hm, Hr. by split.
Qed.

(** The loop is left by [break] at the first attempt that succeeds. *)
Lemma retryLoop_first_success (E : Env) (uri : string)
    (resized : option (option string)) (failed : nat) :
  forall (remaining retryCount : nat) (w : World),
    failed < remaining ->
    retryCount + failed < maxRetries ->
    (forall k, retryCount < k <= retryCount + failed ->
               exists e, manipulateAsync E uri k = inl e) ->
    manipulateAsync E uri (retryCount + failed + 1) = inr resized ->
    retryLoop E uri remaining retryCount w
    = (Ok (LoopDone resized),
       withEvents w (failedAttempts uri failed retryCount
                     ++ [EvManipulate uri (retryCount + failed + 1)])).
Proof.
  induction failed as [|failed IH];
    intros remaining retryCount w Hrem Hmax Hfail Hok.
  - destruct remaining as [|remaining]; [lia|].
    rewrite Nat.add_0_r in *. cbn [retryLoop failedAttempts app].
    unfold bind at 1. rewrite emit_withEvents. by rewrite Hok.
  - destruct remaining as [|remaining]; [lia|].
    cbn [retryLoop failedAttempts].
    unfold bind at 1. rewrite emit_withEvents.
    destruct (Hfail (retryCount + 1) ltac:(lia)) as [e He]. rewrite He.
    assert (Hlt : (maxRetries <=? retryCount + 1) = false)
      by (apply Nat.leb_gt; lia).
    rewrite Hlt. unfold sleep. unfold bind at 1. rewrite emit_withEvents.
    rewrite (IH remaining (retryCount + 1)); [| lia | lia | |].
    + rewrite !withEvents_app.
      by replace (retryCount + 1 + failed + 1) with (retryCount + S failed + 1)
        by lia.
    + intros k Hk. apply Hfail. lia.
    + by replace (retryCount + 1 + failed + 1) with (retryCount + S failed + 1)
        by lia.
Qed.

Lemma afterManipulate_within (E : Env) (resized : option (option string)) :
  keeps (within 0 0) (afterManipulate E resized).
Proof.
  unfold afterManipulate.
  pose proof (decodeBase64Jpeg_within E). pose proof finishPrimary_within.
  destruct resized as [[base64|]|]; [|tensor_only..].
  destruct (bool_decide (base64 = "")); tensor_only.
Qed.

(** The call once the manipulator has answered, after [failed] attempts
    that threw. *)
Lemma imageToTensor_answered (E : Env) (uri : string) (w : World)
    (failed : nat) (resized : option (option string)) :
  JsString.trimIsEmpty uri = false ->
  isPermanentFile uri = false ->
  failed < maxRetries ->
  (forall k, 1 <= k <= failed -> exists e, manipulateAsync E uri k = inl e) ->
  manipulateAsync E uri (failed + 1) = inr resized ->
  imageToTensor E uri w
  = afterManipulate E resized
      (withEvents w (cameraDelay uri ++ failedAttempts uri failed 0
                     ++ [EvManipulate uri (failed + 1)]))
  /\ countEvents isManipulate (newEvents w (snd (imageToTensor E uri w)))
     = failed + 1
  /\ countEvents isReadFile (newEvents w (snd (imageToTensor E uri w))) = 0.
Proof.
  intros Hblank Hperm Hlt Hfail Hok.
  assert (Heq : imageToTensor E uri w
                = afterManipulate E resized
                    (withEvents w (cameraDelay uri ++ failedAttempts uri failed 0
                                   ++ [EvManipulate uri (failed + 1)]))).
  { rewrite (imageToTensor_primary E uri w Hblank Hperm).
    unfold bind at 1.
    rewrite (retryLoop_first_success E uri resized failed maxRetries 0);
      [| lia | lia | intros k Hk; apply Hfail; lia | exact Hok].
    by rewrite withEvents_app. }
  split; [exact Heq|]. rewrite Heq.
  destruct (afterManipulate_within E resized
              (withEvents w (cameraDelay uri ++ failedAttempts uri failed 0
                             ++ [EvManipulate uri (failed + 1)])))
    as (added & Htrace & Hm & Hr).
  cbn [withEvents trace] in Htrace. rewrite <- app_assoc in Htrace.
  rewrite (newEvents_app _ _ _ Htrace).
  destruct (countEvents_failedAttempts uri failed 0) as [Hfm Hfr].
  assert (Hcm : countEvents isManipulate (cameraDelay uri) = 0
                /\ countEvents isReadFile (cameraDelay uri) = 0)
    by (unfold cameraDelay; by destruct (JsString.includes uri "Camera/")).
  destruct Hcm as [Hcm Hcr].
  rewrite !countEvents_app, Hfm, Hfr, Hcm, Hcr.
  split; cbn; lia.
Qed.

(** The attempts and the reads of a call that fell back. *)
Lemma imageToTensor_fallen_back (E : Env) (uri : string) (w : World) :
  JsString.trimIsEmpty uri = false ->
  isPermanentFile uri = false ->
  (forall k, 1 <= k <= 3 -> exists e, manipulateAsync E uri k = inl e) ->
  countEvents isManipulate (newEvents w (snd (imageToTensor E uri w))) = 3
  /\ countEvents isReadFile (newEvents w (snd (imageToTensor E uri w))) = 1.
Proof.
  intros Hblank Hperm Hfail.
  rewrite (imageToTensor_falls_back E uri w Hblank Hperm Hfail).
  destruct (processImageAlternative_reads_once E uri
              (withEvents w (cameraDelay uri ++ threeAttempts uri)))
    as (rest & Htrace & Hm & Hr).
  cbn [withEvents trace] in Htrace. rewrite <- app_assoc in Htrace.
  rewrite (newEvents_app _ _ _ Htrace).
  assert (Hcm : countEvents isManipulate (cameraDelay uri) = 0
                /\ countEvents isReadFile (cameraDelay uri) = 0)
    by (unfold cameraDelay; by destruct (JsString.includes uri "Camera/")).
  destruct Hcm as [Hcm Hcr].
  rewrite !countEvents_app, Hcm, Hcr.
  change (EvReadFile uri :: rest) with ([EvReadFile uri] ++ rest).
  rewrite !countEvents_app, Hm, Hr. by split.
Qed.

(** The manipulator is tried until it answers, three times at most, and the
    file is read directly exactly when it threw three times. *)
Lemma imageToTensor_attempts (E : Env) (uri : string) (w : World) :
  JsString.trimIsEmpty uri = false ->
  isPermanentFile uri = false ->
  countEvents isManipulate (newEvents w (snd (imageToTensor E uri w)))
  = attemptsMade E uri
  /\ countEvents isReadFile (newEvents w (snd (imageToTensor E uri w)))
     = (if allAttemptsThrow E uri then 1 else 0).
Proof.
  intros Hblank Hperm. unfold attemptsMade, allAttemptsThrow, attemptThrows.
  destruct (manipulateAsync E uri 1) as [e1|r1] eqn:H1.
  - destruct (manipulateAsync E uri 2) as [e2|r2] eqn:H2.
    + destruct (manipulateAsync E uri 3) as [e3|r3] eqn:H3.
      * apply imageToTensor_fallen_back; [done | done |].
        intros k Hk.
        assert (Hcases : k = 1 \/ k = 2 \/ k = 3) by lia.
        destruct Hcases as [-> | [-> | ->]]; eauto.
      * apply (imageToTensor_answered E uri w 2 r3); [done | done | | | done].
        -- unfold maxRetries. lia.
        -- intros k Hk. assert (Hcases : k = 1 \/ k = 2) by lia.
           destruct Hcases as [-> | ->]; eauto.
    + apply (imageToTensor_answered E uri w 1 r2); [done | done | | | done].
      * unfold maxRetries. lia.
      * intros k Hk. assert (k = 1) as -> by lia. eauto.
  - apply (imageToTensor_answered E uri w 0 r1); [done | done | | | done].
    + unfold maxRetries. lia.
    + intros k Hk. lia.
Qed.

(** An answer without base64 data at the first attempt: the call throws, and
    nothing else is tried. *)
Lemma imageToTensor_no_base64 (E : Env) (uri : string) (w : World)
    (resized : option (option string)) :
  JsString.trimIsEmpty uri = false ->
  isPermanentFile uri = false ->
  manipulateAsync E uri 1 = inr resized ->
  (forall base64, resized = Some (Some base64) -> base64 = "") ->
  imageToTensor E uri w
  = (Throw NoBase64, withEvents w (cameraDelay uri ++ [EvManipulate uri 1])).
Proof.
  intros Hblank Hperm Hok Hnone.
  destruct (imageToTensor_answered E uri w 0 resized Hblank Hperm) as [Heq _];
    [unfold maxRetries; lia | intros k Hk; lia | exact Hok |].
  rewrite Heq. unfold afterManipulate.
  destruct resized as [[base64|]|]; [|reflexivity..].
  by rewrite (Hnone base64 eq_refl).
Qed.

(** The whole direct read of a file that decodes to an image of a valid
    shape. *)
Lemma processImageAlternative_valid (E : Env) (uri base64 bin : string)
    (sh : list nat) (vs : list JsNumber) (w : World) :
  readAsStringAsync E uri = inr base64 ->
  atob E base64 = inr bin ->
  decodeJpeg E bin = inr (sh, vs) ->
  invalidImageShape sh = false ->
  exists r w',
    processImageAlternative E uri w = (Ok r, w')
    /\ shape r = [1; 224; 224; 3]
    /\ values r = map div255 (if needsResize sh
                              then resizeValues E sh vs
                              else vs)
    /\ newEvents w w' = directReadEvents uri (nextId w) (needsResize sh).
Proof.
  intros Hread Hatob Hdec Hvalid.
  destruct (validShape_inv _ Hvalid) as (h & wd & ->).
  unfold processImageAlternative, decodeBase64Jpeg, finishAlternative,
    resizeBilinear, expandDims0, divBy255.
  unfold tryCatch, bind, emit, fromResult. rewrite Hread. cbn [ret].
  unfold ret at 1. rewrite Hatob. unfold ret at 1. rewrite Hdec.
  unfold newTensor at 1. cbn [fst snd shape values].
  destruct (needsResize [h; wd; 3]) eqn:Hnr.
  - unfold newTensor, dispose, ret. cbn.
    eexists _, _. split; [reflexivity|]. repeat split.
    unfold directReadEvents.
    erewrite newEvents_app; [reflexivity|].
    cbn. by rewrite <- !app_assoc.
  - assert (Hsh : [h; wd; 3] = [224; 224; 3]).
    { unfold needsResize in Hnr. cbn in Hnr.
      apply orb_false_iff in Hnr as [H0 H1].
      apply negb_false_iff, bool_decide_eq_true in H0.
      apply negb_false_iff, bool_decide_eq_true in H1.
      injection H0 as ->. injection H1 as ->. reflexivity. }
    unfold ret at 1. cbn [shape]. rewrite Hvalid.
    unfold newTensor, dispose, ret. cbn.
    eexists _, _. split; [reflexivity|]. cbn. rewrite Hsh. repeat split.
    unfold directReadEvents.
    erewrite newEvents_app; [reflexivity|].
    cbn. by rewrite <- !app_assoc.
Qed.

(** The direct read of a file whose content cannot be decoded. *)
Lemma processImageAlternative_undecodable (E : Env) (uri base64 : string)
    (w : World) (e : JsError) :
  readAsStringAsync E uri = inr base64 ->
  atob E base64 = inl e
  \/ (exists bin, atob E base64 = inr bin /\ decodeJpeg E bin = inl e) ->
  processImageAlternative E uri w
  = (Throw (AllMethodsFailed e), withEvents w [EvReadFile uri]).
Proof.
  intros Hread Hdec.
  unfold processImageAlternative, decodeBase64Jpeg.
  unfold tryCatch, bind, emit, fromResult. rewrite Hread. cbn [ret].
  unfold ret at 1.
  destruct Hdec as [Hatob|(bin & Hatob & Hjpeg)]; rewrite Hatob.
  - reflexivity.
  - unfold ret at 1. by rewrite Hjpeg.
Qed.

(** Whatever makes the direct read fail, the error it throws is the error
    of the fall back, which holds the cause. *)
Lemma processImageAlternative_throws (E : Env) (uri : string) (w w' : World)
    (e : JsError) :
  processImageAlternative E uri w = (Throw e, w') ->
  exists cause, e = AllMethodsFailed cause.
Proof.
  unfold processImageAlternative. unfold tryCatch at 1.
  match goal with |- context [match ?m with _ => _ end] =>
    destruct m as [[r|cause] w1]
  end.
  - discriminate.
  - unfold throw. intros H. injection H as <- _. by exists cause.
Qed.

(** C7, as the code has it. The manipulator is tried until it answers, three
    times at most, with waits of 200 and 400 milliseconds after the first
    and the second throw; the file is read directly exactly when it threw
    three times, and the call is then the direct read and nothing else. The
    direct read reads the file once, decodes it, resizes the decoded image
    exactly when its height or width is not 224, adds the batch dimension
    and divides by 255; it throws the error of the fall back, with the
    cause in it, when the file cannot be read or decoded, and so does the
    call. An answer of the manipulator without base64 data is not a throw:
    the call fails at once, with no further attempt and no direct read.
    Once the manipulator has answered, after fewer than three throws and a
    wait of 200 milliseconds times the number of the attempt after each,
    the call goes on with the answer alone. *)
Theorem imageToTensor_retries_then_falls_back :
  (forall (E : Env) (uri : string) (w : World),
      JsString.trimIsEmpty uri = false ->
      isPermanentFile uri = false ->
      (forall k, 1 <= k <= 3 -> exists e, manipulateAsync E uri k = inl e) ->
      imageToTensor E uri w
      = processImageAlternative E uri
          (withEvents w (cameraDelay uri ++ threeAttempts uri)))
  /\ (forall (E : Env) (uri : string) (w : World),
         JsString.trimIsEmpty uri = false ->
         isPermanentFile uri = false ->
         countEvents isManipulate (newEvents w (snd (imageToTensor E uri w)))
         = attemptsMade E uri
         /\ countEvents isReadFile (newEvents w (snd (imageToTensor E uri w)))
            = (if allAttemptsThrow E uri then 1 else 0))
  /\ (forall (E : Env) (uri base64 bin : string) (sh : list nat)
             (vs : list JsNumber) (w : World),
         readAsStringAsync E uri = inr base64 ->
         atob E base64 = inr bin ->
         decodeJpeg E bin = inr (sh, vs) ->
         invalidImageShape sh = false ->
         exists r w',
           processImageAlternative E uri w = (Ok r, w')
           /\ shape r = [1; 224; 224; 3]
           /\ values r = map div255 (if needsResize sh
                                     then resizeValues E sh vs
                                     else vs)
           /\ newEvents w w' = directReadEvents uri (nextId w) (needsResize sh)
           /\ countEvents isResize (newEvents w w')
              = (if needsResize sh then 1 else 0))
  /\ (forall (E : Env) (uri : string) (w : World) (e : JsError),
         readAsStringAsync E uri = inl e ->
         processImageAlternative E uri w
         = (Throw (AllMethodsFailed (ReadFailed e)),
            withEvents w [EvReadFile uri]))
  /\ (forall (E : Env) (uri base64 : string) (w : World) (e : JsError),
         readAsStringAsync E uri = inr base64 ->
         atob E base64 = inl e
         \/ (exists bin, atob E base64 = inr bin /\ decodeJpeg E bin = inl e) ->
         processImageAlternative E uri w
         = (Throw (AllMethodsFailed e), withEvents w [EvReadFile uri]))
  /\ (forall (E : Env) (uri : string) (w w' : World) (e : JsError),
         processImageAlternative E uri w = (Throw e, w') ->
         exists cause, e = AllMethodsFailed cause)
  /\ (forall (E : Env) (uri : string) (w : World),
         within 3 1 w (snd (imageToTensor E uri w)))
  /\ (forall (E : Env) (uri : string) (w : World),
         exists rest,
           trace (snd (processImageAlternative E uri w))
           = trace w ++ EvReadFile uri :: rest
           /\ countEvents isManipulate rest = 0
           /\ countEvents isReadFile rest = 0)
  /\ (forall (E : Env) (uri : string) (w : World)
             (resized : option (option string)),
         JsString.trimIsEmpty uri = false ->
         isPermanentFile uri = false ->
         manipulateAsync E uri 1 = inr resized ->
         (forall base64, resized = Some (Some base64) -> base64 = "") ->
         imageToTensor E uri w
         = (Throw NoBase64,
            withEvents w (cameraDelay uri ++ [EvManipulate uri 1])))
  /\ (forall (E : Env) (uri : string) (w : World) (failed : nat)
             (resized : option (option string)),
         JsString.trimIsEmpty uri = false ->
         isPermanentFile uri = false ->
         failed < maxRetries ->
         (forall k, 1 <= k <= failed ->
                    exists e, manipulateAsync E uri k = inl e) ->
         manipulateAsync E uri (failed + 1) = inr resized ->
         imageToTensor E uri w
         = afterManipulate E resized
             (withEvents w (cameraDelay uri ++ failedAttempts uri failed 0
                            ++ [EvManipulate uri (failed + 1)]))).
Proof.
  split; [apply imageToTensor_falls_back|].
  split; [apply imageToTensor_attempts|].
  split.
  { intros E uri base64 bin sh vs w Hread Hatob Hdec Hvalid.
    destruct (processImageAlternative_valid E uri base64 bin sh vs w
                Hread Hatob Hdec Hvalid) as (r & w' & H & Hs & Hv & Hev).
    exists r, w'. repeat split; [done..|].
    rewrite Hev. unfold directReadEvents. by destruct (needsResize sh). }
  split; [apply processImageAlternative_unreadable|].
  split; [apply processImageAlternative_undecodable|].
  split; [apply processImageAlternative_throws|].
  split; [intros E uri; apply imageToTensor_within|].
  split; [apply processImageAlternative_reads_once|].
  split; [apply imageToTensor_no_base64|].
  intros E uri w failed resized Hblank Hperm Hlt Hfail Hok.
  apply (imageToTensor_answered E uri w failed resized Hblank Hperm Hlt Hfail Hok).
Qed.

(** A photo that does not exist: three attempts, the direct read, and the
    call fails with no tensor made. *)
Lemma imageToTensor_retries_then_falls_back_witness :
  imageToTensor envMissingFile "file:///nowhere.jpg" world0
  = (Throw (AllMethodsFailed (ReadFailed (LibraryError "No such file or directory"))),
     withEvents world0
       [ EvManipulate "file:///nowhere.jpg" 1; EvSleep 200;
         EvManipulate "file:///nowhere.jpg" 2; EvSleep 400;
         EvManipulate "file:///nowhere.jpg" 3;
         EvReadFile "file:///nowhere.jpg" ]).
Proof.
  rewrite (proj1 imageToTensor_retries_then_falls_back).
  - rewrite (proj1 (proj2 (proj2 (proj2 imageToTensor_retries_then_falls_back)))
               _ _ _ (LibraryError "No such file or directory")); reflexivity.
  - reflexivity.
  - reflexivity.
  - intros k _. eexists. reflexivity.
Defined.

(** C7, as the specification states it, fails: the manipulator answers for
    a photo, the answer holds no base64 data, and the call throws after
    this one attempt, without a second attempt and without the direct read,
    which would have returned a tensor. *)
Lemma imageToTensor_fails_without_fall_back :
  manipulateAsync envNoBase64 "file:///cache/photo.jpg" 1 = inr (Some None)
  /\ imageToTensor envNoBase64 "file:///cache/photo.jpg" world0
     = (Throw NoBase64,
        withEvents world0 [EvManipulate "file:///cache/photo.jpg" 1])
  /\ exists r w',
       processImageAlternative envNoBase64 "file:///cache/photo.jpg" world0
       = (Ok r, w')
       /\ shape r = [1; 224; 224; 3].
Proof.
  split; [reflexivity|]. split.
  - by rewrite (imageToTensor_no_base64 envNoBase64 "file:///cache/photo.jpg"
                  world0 (Some None)).
  - destruct (processImageAlternative_valid envNoBase64
                "file:///cache/photo.jpg" "/9j/4AAQSkZJRg==" "/9j/4AAQSkZJRg=="
                [224; 224; 3] blackPixels world0)
      as (r & w' & H & Hs & _); [reflexivity..|].
    by exists r, w'.
Qed.








(** ** The arg-max *)

Lemma gtb_Fin (a b : Q) : gtb (Fin a) (Fin b) = true <-> (b < a)%Q.
Proof.
  cbn. rewrite negb_true_iff. split.
  - intros H. apply Qnot_le_lt. intros Hle.
    apply Qle_bool_iff in Hle. congruence.
  - intros Hlt. destruct (Qle_bool a b) eqn:Hle; [|reflexivity].
    apply Qle_bool_iff in Hle. exfalso. by apply (Qlt_not_le b a).
Qed.

Lemma gtb_Fin_false (a b : Q) : gtb (Fin a) (Fin b) = false <-> (a <= b)%Q.
Proof.
  cbn. rewrite negb_false_iff. apply Qle_bool_iff.
Qed.

Lemma gtb_irrefl (x : JsNumber) : gtb x x = false.
Proof. destruct x; [|reflexivity..]. apply gtb_Fin_false, Qle_refl. Qed.

(** Over finite values: what is not above the old maximum is below a value
    that is above it. *)
Lemma gtb_below_new_max (x max v : JsNumber) :
  isValidNumber x = true -> isValidNumber max = true -> isValidNumber v = true ->
  gtb x max = false -> gtb v max = true ->
  gtb x v = false /\ gtb v x = true.
Proof.
  destruct x as [a| | |], max as [b| | |], v as [c| | |]; try discriminate.
  intros _ _ _ Hxm Hvm.
  apply gtb_Fin_false in Hxm. apply gtb_Fin in Hvm. split.
  - apply gtb_Fin_false. apply Qlt_le_weak. by apply (Qle_lt_trans a b c).
  - apply gtb_Fin. by apply (Qle_lt_trans a b c).
Qed.

(** The loop of the arg-max, from the values already seen [pre] on: its
    result is the first position of a value that none exceeds. *)
Lemma argMaxFrom_first_max (row pre : list JsNumber) (max : JsNumber)
    (maxIndex : nat) :
  Forall (fun x => isValidNumber x = true) (pre ++ row) ->
  pre !! maxIndex = Some max ->
  (forall x, x ∈ pre -> gtb x max = false) ->
  (forall k x, k < maxIndex -> pre !! k = Some x -> gtb max x = true) ->
  exists m,
    (pre ++ row) !! argMaxFrom max maxIndex (length pre) row = Some m
    /\ (forall x, x ∈ pre ++ row -> gtb x m = false)
    /\ (forall k x, k < argMaxFrom max maxIndex (length pre) row ->
                    (pre ++ row) !! k = Some x -> gtb m x = true).
Proof.
  revert pre max maxIndex.
  induction row as [|v row IH]; intros pre max maxIndex Hfin Hmax Hle Hlt.
  - cbn. rewrite app_nil_r. exists max. by repeat split.
  - cbn [argMaxFrom].
    assert (Hpre : Forall (fun x => isValidNumber x = true) pre)
      by (by apply Forall_app in Hfin as [? _]).
    assert (Hv : isValidNumber v = true).
    { apply Forall_app in Hfin as [_ Hrow]. by apply Forall_cons in Hrow as [? _]. }
    assert (Hm : isValidNumber max = true).
    { rewrite Forall_forall in Hpre. apply Hpre.
      apply list_elem_of_lookup. by exists maxIndex. }
    replace (pre ++ v :: row) with ((pre ++ [v]) ++ row) in *
      by (by rewrite <- app_assoc).
    replace (S (length pre)) with (length (pre ++ [v]))
      by (rewrite length_app; cbn; lia).
    destruct (gtb v max) eqn:Hgt.
    + apply IH; [assumption | | |].
      * by rewrite lookup_app_r, Nat.sub_diag.
      * intros x Hx. apply elem_of_app in Hx as [Hx|Hx].
        -- apply (gtb_below_new_max x max v); auto.
           rewrite Forall_forall in Hpre. by apply Hpre.
        -- apply list_elem_of_singleton in Hx as ->. apply gtb_irrefl.
      * intros k x Hk Hkx. rewrite lookup_app_l in Hkx by assumption.
        apply (gtb_below_new_max x max v); auto.
        -- rewrite Forall_forall in Hpre. apply Hpre.
           apply list_elem_of_lookup. by exists k.
        -- apply Hle. apply list_elem_of_lookup. by exists k.
    + apply IH; [assumption | | |].
      * rewrite lookup_app_l; [assumption|]. by apply lookup_lt_Some in Hmax.
      * intros x Hx. apply elem_of_app in Hx as [Hx|Hx]; [by apply Hle|].
        by apply list_elem_of_singleton in Hx as ->.
      * intros k x Hk Hkx. apply (Hlt k x Hk).
        rewrite lookup_app_l in Hkx; [assumption|].
        apply lookup_lt_Some in Hmax. lia.
Qed.

(** On finite scores the arg-max is the position of the maximum, and of its
    first occurrence: no score exceeds the one it points to, and that one
    exceeds every score before it. *)
Lemma argMaxRow_first_max (row : list JsNumber) :
  Forall (fun x => isValidNumber x = true) row ->
  row ≠ [] ->
  exists m,
    row !! argMaxRow row = Some m
    /\ (forall x, x ∈ row -> gtb x m = false)
    /\ (forall k x, k < argMaxRow row -> row !! k = Some x -> gtb m x = true).
Proof.
  intros Hfin Hne. destruct row as [|first rest]; [done|].
  unfold argMaxRow. cbn [argMaxFrom]. rewrite gtb_irrefl.
  apply (argMaxFrom_first_max rest [first] first 0); [assumption|reflexivity| |].
  - intros x Hx. apply list_elem_of_singleton in Hx as ->. apply gtb_irrefl.
  - intros k x Hk. lia.
Qed.

Example argMaxRow_tie :
  argMaxRow [Fin (1 # 2); Fin (1 # 2); Fin (1 # 10)] = 0.
Proof. reflexivity. Qed.

Lemma rowsOf_single (vs : list JsNumber) :
  vs ≠ [] -> rowsOf (length vs) (length vs) vs = [vs].
Proof.
  intros Hne. destruct vs as [|v vs]; [done|].
  cbn [length rowsOf]. rewrite take_ge by (cbn; lia).
  rewrite drop_ge by (cbn; lia). by destruct (length vs).
Qed.

(** With exactly 22 values in the last dimension, the result of
    [predictImage] is the arg-max of the scores, its score and its label. *)
Lemma predictImage_exact (E : Env) (labels : list string) (uri : string)
    (m : GraphModel) (w w1 w2 : World) (tensor prediction : Tensor) :
  imageToTensor E uri w = (Ok tensor, w1) ->
  predict m tensor w1 = (Ok prediction, w2) ->
  length (values prediction) = 22 ->
  last (shape prediction) = Some 22 ->
  exists r w',
    predictImage E labels uri (Some m) w = (Ok (Some r), w')
    /\ classIndex r = Some (argMaxRow (values prediction))
    /\ confidence r = values prediction !! argMaxRow (values prediction)
    /\ label r = labels !! argMaxRow (values prediction)
    /\ allScores r = values prediction.
Proof.
  intros Himg Hpred Hlen Hlast.
  unfold predictImage, tryCatch. unfold bind at 1. rewrite Himg.
  unfold bind at 1. rewrite Hpred.
  unfold bind at 1. rewrite (reconcileScores_exact prediction w2 Hlen).
  cbn [fst snd]. unfold argMaxLast. rewrite Hlast.
  assert (Hrows : rowsOf (length (values prediction)) 22 (values prediction)
                  = [values prediction]).
  { assert (Hne : values prediction ≠ [])
      by (intros Hnil; by rewrite Hnil in Hlen).
    pose proof (rowsOf_single (values prediction) Hne) as Hr.
    by rewrite Hlen in Hr at 2. }
  rewrite Hrows.
  unfold bind, newTensor, dispose, ret. cbn [fst snd map lookup].
  rewrite (bool_decide_eq_false_2 (tid prediction ≠ tid prediction)) by tauto.
  eexists _, _. split; [reflexivity|]. by repeat split.
Qed.

(** ** Worked cases *)

Lemma reconcileScores_three_cases_witness :
  reconcileScores (mkTensor 7 [1; 22] scores22) world0
  = (Ok (mkTensor 7 [1; 22] scores22, scores22), world0)
  /\ (exists processed w',
         reconcileScores (mkTensor 7 [1; 30] scores30) world0
         = (Ok (processed, take 22 scores30), w'))
  /\ (exists w',
         reconcileScores (mkTensor 7 [1; 10] (repeat (Fin (1 # 10)) 10)) world0
         = (Throw (InsufficientOutputClasses 10), w')).
Proof.
  split; [|split].
  - apply (proj1 reconcileScores_three_cases (mkTensor 7 [1; 22] scores22)).
    reflexivity.
  - apply (proj1 (proj2 reconcileScores_three_cases)
             (mkTensor 7 [1; 30] scores30) world0 8); [lia | reflexivity].
  - apply (proj1 (proj2 (proj2 reconcileScores_three_cases))
             (mkTensor 7 [1; 10] (repeat (Fin (1 # 10)) 10))).
    cbn. lia.
Defined.

(** After a successful [imageToTensor] two tensors are live: the one it
    returns (2) and the one [expandDims] made (1), which nothing disposes. *)
Example imageToTensor_live_after_success :
  match imageToTensor (envBlackPhoto model22) "file:///photo.jpg" world0 with
  | (Ok r, w') => tid r = 2 /\ elements (live w') ≡ₚ [1; 2]
  | _ => False
  end.
Proof.
  vm_compute.
  match goal with |- _ /\ ?l ≡ₚ _ => change l with [2; 1] end.
  split; [reflexivity|]. apply (bool_decide_unpack _). vm_compute. exact I.
Qed.

(** After a successful [predictImage] the input, the raw output and the
    squeezed output are disposed, once each; the tensors of [expandDims] (1)
    and of [argMax] (5) stay live. *)
Example predictImage_live_after_success :
  trace (snd (predictImage (envBlackPhoto model30) labels22 "file:///photo.jpg"
                           (Some model30) world0))
  = [ EvManipulate "file:///photo.jpg" 1;
      EvTensor OpDecodeJpeg 0; EvTensor OpExpandDims 1; EvTensor OpDiv 2;
      EvDispose 0; EvTensor OpPredict 3; EvTensor OpSqueeze 4;
      EvTensor OpArgMax 5; EvDispose 2; EvDispose 3; EvDispose 4 ]
  /\ elements (live (snd (predictImage (envBlackPhoto model30) labels22
                                       "file:///photo.jpg" (Some model30) world0)))
     ≡ₚ [1; 5].
Proof.
  split; [vm_compute; reflexivity|].
  vm_compute.
  match goal with |- ?l ≡ₚ _ => change l with [5; 1] end.
  apply (bool_decide_unpack _). vm_compute. exact I.
Qed.

(** Whatever the photo and the model: when the raw output is too short, the
    input tensor and the raw output are still live when [predictImage]
    returns [null]. *)
Lemma predictImage_short_output_live (E : Env) (labels : list string)
    (uri : string) (m : GraphModel) (w w1 w2 : World)
    (tensor prediction : Tensor) :
  imageToTensor E uri w = (Ok tensor, w1) ->
  tid tensor ∈ live w1 ->
  predict m tensor w1 = (Ok prediction, w2) ->
  length (values prediction) < expectedClasses ->
  exists w3,
    predictImage E labels uri (Some m) w = (Ok None, w3)
    /\ tid tensor ∈ live w3
    /\ tid prediction ∈ live w3.
Proof.
  intros Himg Hlive Hpred Hlen.
  assert (Hw2 : tid tensor ∈ live w2 /\ tid prediction ∈ live w2).
  { unfold predict, bind, fromResult in Hpred.
    destruct (forward m tensor) as [e|out]; [discriminate Hpred|].
    unfold ret, newTensor in Hpred. injection Hpred as <- <-. cbn.
    split; apply elem_of_union; [by right | left; by apply elem_of_singleton]. }
  destruct Hw2 as [Ht Hp].
  assert (Hrec : exists w3,
             reconcileScores prediction w2
             = (Throw (InsufficientOutputClasses (length (values prediction))), w3)
             /\ (forall i, i ∈ live w2 -> i ∈ live w3)).
  { unfold reconcileScores, tryCatch, bind.
    assert (Hne : (length (values prediction) =? expectedClasses) = false)
      by (apply Nat.eqb_neq; lia).
    assert (Hnl : (expectedClasses <? length (values prediction)) = false)
      by (apply Nat.ltb_ge; lia).
    apply Nat.ltb_lt in Hlen. rewrite Hne.
    destruct (1 <? length (shape prediction));
      unfold squeeze, newTensor, ret, throw; cbn [fst snd values];
      rewrite Hnl, Hlen; eexists; (split; [reflexivity|]); cbn.
    - intros i Hi. apply elem_of_union. by right.
    - tauto. }
  destruct Hrec as (w3 & Hrec & Hsub).
  exists w3. split; [|split; by apply Hsub].
  unfold predictImage, tryCatch, bind. by rewrite Himg, Hpred, Hrec.
Qed.

(** The message of the error the missing photo ends with. *)
Example errorMessage_missing_file :
  errorMessage (AllMethodsFailed (ReadFailed (LibraryError "No such file or directory")))
  = "All image processing methods failed. Original error: Error: Failed to read image file: Error: No such file or directory".
Proof. reflexivity. Qed.

Example errorMessage_short_output :
  errorMessage (InsufficientOutputClasses 10)
  = "Insufficient output classes: got 10, need 22".
Proof. reflexivity. Qed.

(** * Further properties *)

(** ** The extractors of the label mapper *)

Section LookupSome.
Context {V : Type} (key : V -> string).

(** What is looked up in a filled map is a record of the table, under its
    own key. *)
Lemma build_lookup_Some (table : list V) (acc : gmap string V) (k : string)
    (v : V) :
  foldl (fun (m : gmap string V) v => <[key v := v]> m) acc table !! k = Some v ->
  (v ∈ table /\ key v = k) \/ acc !! k = Some v.
Proof.
  revert acc. induction table as [|x table IH]; intros acc H; [by right|].
  cbn in H. apply IH in H as [[Hin Hk]|H].
  - left. split; [by right | exact Hk].
  - destruct (decide (key x = k)) as [Heq|Hne].
    + rewrite <- Heq, lookup_insert_eq in H. injection H as <-.
      left. split; [left | exact Heq].
    + rewrite lookup_insert_ne in H by exact Hne. by right.
Qed.
End LookupSome.

Lemma mapLocalToBackend_Some (label : string) (m : DiseaseMapping) :
  mapLocalToBackend label = Some m <-> m ∈ DISEASE_MAPPINGS /\ localLabel m = label.
Proof.
  unfold mapLocalToBackend, localToBackendMap, buildLocalToBackend. split.
  - intros H. apply (build_lookup_Some localLabel) in H as [H|H]; [exact H|].
    by rewrite lookup_empty in H.
  - intros [Hin <-].
    apply (build_lookup_unique localLabel); [|exact Hin].
    apply DISEASE_MAPPINGS_localLabel_NoDup.
Qed.

Lemma mapBackendToLocal_Some (name : string) (m : DiseaseMapping) :
  mapBackendToLocal name = Some m ->
  m ∈ DISEASE_MAPPINGS /\ backendDiseaseName m = name.
Proof.
  unfold mapBackendToLocal, backendToLocalMap, buildBackendToLocal.
  intros H. apply (build_lookup_Some backendDiseaseName) in H as [H|H];
    [exact H|]. by rewrite lookup_empty in H.
Qed.

(** A check of every record of the table is a computation. *)
Lemma table_forall (P : DiseaseMapping -> bool) :
  forallb P DISEASE_MAPPINGS = true ->
  forall m, m ∈ DISEASE_MAPPINGS -> P m = true.
Proof.
  intros H m Hin. rewrite forallb_forall in H. apply H.
  by apply list_elem_of_In.
Qed.

(** Both extractors give a record's own crop type and backend name on the
    record's label, and the parsing they fall back to gives the same two
    values from the label alone. *)
Theorem extractors_agree_with_table (m : DiseaseMapping) :
  m ∈ DISEASE_MAPPINGS ->
  extractCropTypeFromLabel (localLabel m) = cropType m
  /\ extractDiseaseFromLabel (localLabel m) = backendDiseaseName m
  /\ parseCropFromLabel (localLabel m) = cropType m
  /\ parseDiseaseFromLabel (localLabel m) = backendDiseaseName m.
Proof.
  intros Hin.
  assert (Hlook : mapLocalToBackend (localLabel m) = Some m)
    by (by apply mapLocalToBackend_Some).
  unfold extractCropTypeFromLabel, extractDiseaseFromLabel. rewrite Hlook.
  split; [reflexivity|]. split; [reflexivity|].
  assert (Hall : forallb
            (fun r => bool_decide (parseCropFromLabel (localLabel r) = cropType r)
                      && bool_decide (parseDiseaseFromLabel (localLabel r)
                                      = backendDiseaseName r))
            DISEASE_MAPPINGS = true) by (vm_compute; reflexivity).
  pose proof (table_forall _ Hall m Hin) as H. cbn beta in H.
  apply andb_true_iff in H as [H1 H2].
  apply bool_decide_eq_true in H1. apply bool_decide_eq_true in H2. by split.
Qed.

Lemma extractors_agree_with_table_witness :
  extractCropTypeFromLabel "Maize - Leaf Blight" = MAIZE
  /\ extractDiseaseFromLabel "Maize - Leaf Blight" = "leaf_blight"
  /\ parseCropFromLabel "Maize - Leaf Blight" = MAIZE
  /\ parseDiseaseFromLabel "Maize - Leaf Blight" = "leaf_blight".
Proof.
  apply (extractors_agree_with_table
           (mkMapping "Maize - Leaf Blight" "leaf_blight" MAIZE false)).
  repeat first [ apply list_elem_of_here | apply list_elem_of_further ].
Defined.

Lemma prefix_append (p rest : string) : String.prefix p (p +:+ rest) = true.
Proof.
  induction p as [|c p IH]; cbv [String.append]; fold String.append.
  - by destruct rest.
  - cbn. by destruct (ascii_dec c c).
Qed.

Lemma extractCropType_mapped_prefix (p rest : string) (crop : CropType)
    (m : DiseaseMapping) :
  forallb (fun r => negb (String.prefix p (localLabel r))
                    || bool_decide (cropType r = crop)) DISEASE_MAPPINGS = true ->
  mapLocalToBackend (p +:+ rest) = Some m ->
  cropType m = crop.
Proof.
  intros Hall Hlook. apply mapLocalToBackend_Some in Hlook as [Hin Hl].
  pose proof (table_forall _ Hall m Hin) as H. cbn beta in H.
  rewrite Hl, prefix_append in H. cbn in H. by apply bool_decide_eq_true in H.
Qed.

(** The crop is read from the label's prefix, for every label with the
    prefix of a crop, whether the table has it or not, as long as the rest
    of the label names no crop that the fall back looks for earlier; when it
    does, an unmapped label gets that earlier crop. *)
Theorem extractCropTypeFromLabel_prefix :
  (forall rest, extractCropTypeFromLabel ("Cashew - " +:+ rest) = CASHEW)
  /\ (forall rest,
         JsString.includes (JsString.toLowerCase rest) "cashew" = false ->
         extractCropTypeFromLabel ("Cassava - " +:+ rest) = CASSAVA)
  /\ (forall rest,
         JsString.includes (JsString.toLowerCase rest) "cashew" = false ->
         JsString.includes (JsString.toLowerCase rest) "cassava" = false ->
         extractCropTypeFromLabel ("Maize - " +:+ rest) = MAIZE)
  /\ (forall rest,
         JsString.includes (JsString.toLowerCase rest) "cashew" = false ->
         JsString.includes (JsString.toLowerCase rest) "cassava" = false ->
         JsString.includes (JsString.toLowerCase rest) "maize" = false ->
         extractCropTypeFromLabel ("Tomato - " +:+ rest) = TOMATO)
  /\ extractCropTypeFromLabel "Tomato - Cashew Rot" = CASHEW.
Proof.
  split; [|split; [|split; [|split]]].
  - intros rest. unfold extractCropTypeFromLabel.
    destruct (mapLocalToBackend _) as [m|] eqn:Hlook.
    + apply (extractCropType_mapped_prefix "Cashew - " rest CASHEW m);
        [vm_compute; reflexivity | exact Hlook].
    + unfold parseCropFromLabel. cbv [String.append]. reflexivity.
  - intros rest H1. unfold extractCropTypeFromLabel.
    destruct (mapLocalToBackend _) as [m|] eqn:Hlook.
    + apply (extractCropType_mapped_prefix "Cassava - " rest CASSAVA m);
        [vm_compute; reflexivity | exact Hlook].
    + unfold parseCropFromLabel. cbv [String.append]. cbn. rewrite H1.
      reflexivity.
  - intros rest H1 H2. unfold extractCropTypeFromLabel.
    destruct (mapLocalToBackend _) as [m|] eqn:Hlook.
    + apply (extractCropType_mapped_prefix "Maize - " rest MAIZE m);
        [vm_compute; reflexivity | exact Hlook].
    + unfold parseCropFromLabel. cbv [String.append]. cbn. rewrite H1, H2.
      reflexivity.
  - intros rest H1 H2 H3. unfold extractCropTypeFromLabel.
    destruct (mapLocalToBackend _) as [m|] eqn:Hlook.
    + apply (extractCropType_mapped_prefix "Tomato - " rest TOMATO m);
        [vm_compute; reflexivity | exact Hlook].
    + unfold parseCropFromLabel. cbv [String.append]. cbn.
      rewrite H1, H2, H3. reflexivity.
  - vm_compute. reflexivity.
Qed.

Lemma extractCropTypeFromLabel_prefix_witness :
  extractCropTypeFromLabel "Tomato - Early Blight" = TOMATO.
Proof.
  apply (proj1 (proj2 (proj2 (proj2 extractCropTypeFromLabel_prefix)))
           "Early Blight"); reflexivity.
Defined.

(** *** The shape of a backend name *)

Lemma lowerAscii_idem (c : ascii) :
  JsString.lowerAscii (JsString.lowerAscii c) = JsString.lowerAscii c.
Proof. destruct c as [[] [] [] [] [] [] [] []]; reflexivity. Qed.

Lemma chars_String (c : ascii) (s : string) : chars (String c s) = c :: chars s.
Proof. reflexivity. Qed.

Lemma toLowerCase_lower (s : string) :
  Forall (fun c => JsString.lowerAscii c = c) (chars (JsString.toLowerCase s)).
Proof.
  induction s as [|c s IH]; [constructor|].
  cbn [JsString.toLowerCase]. rewrite chars_String.
  constructor; [apply lowerAscii_idem | exact IH].
Qed.

Lemma replaceSpaceRuns_chars (s : string) (inRun : bool) :
  Forall (fun c => JsString.lowerAscii c = c) (chars s) ->
  Forall (fun c => JsString.isWhiteSpace c = false /\ JsString.lowerAscii c = c)
         (chars (JsText.replaceSpaceRuns inRun s)).
Proof.
  revert inRun. induction s as [|c s IH]; intros inRun Hlow; [constructor|].
  rewrite chars_String in Hlow. apply Forall_cons in Hlow as [Hc Hs].
  cbn [JsText.replaceSpaceRuns].
  destruct (JsString.isWhiteSpace c) eqn:Hws.
  - destruct inRun; [by apply IH|].
    rewrite chars_String. constructor; [by split | by apply IH].
  - rewrite chars_String. constructor; [by split | by apply IH].
Qed.

Lemma slug_chars (s : string) :
  Forall (fun c => JsString.isWhiteSpace c = false /\ JsString.lowerAscii c = c)
         (chars (slug s)).
Proof. apply replaceSpaceRuns_chars, toLowerCase_lower. Qed.

(** Whatever the label, the disease name that [extractDiseaseFromLabel]
    hands to the backend holds no white space and no upper-case letter. *)
Theorem extractDiseaseFromLabel_shape (label : string) :
  Forall (fun c => JsString.isWhiteSpace c = false /\ JsString.lowerAscii c = c)
         (chars (extractDiseaseFromLabel label)).
Proof.
  unfold extractDiseaseFromLabel.
  destruct (mapLocalToBackend label) as [m|] eqn:Hlook.
  - apply mapLocalToBackend_Some in Hlook as [Hin _].
    assert (Hall : forallb
              (fun r => forallb
                          (fun c => negb (JsString.isWhiteSpace c)
                                    && bool_decide (JsString.lowerAscii c = c))
                          (chars (backendDiseaseName r)))
              DISEASE_MAPPINGS = true) by (vm_compute; reflexivity).
    pose proof (table_forall _ Hall m Hin) as H. cbn beta in H.
    rewrite forallb_forall in H. apply Forall_forall. intros c Hc.
    apply list_elem_of_In in Hc. specialize (H c Hc).
    apply andb_true_iff in H as [H1 H2].
    apply negb_true_iff in H1. apply bool_decide_eq_true in H2. by split.
  - unfold parseDiseaseFromLabel.
    destruct (JsText.split " - " label) as [|part0 [|part1 parts]];
      apply slug_chars.
Qed.

Example extractDiseaseFromLabel_unmapped :
  extractDiseaseFromLabel "Mango -  Powdery   Mildew" = "_powdery_mildew"
  /\ extractDiseaseFromLabel "Leaf Rust" = "leaf_rust".
Proof. split; vm_compute; reflexivity. Qed.

(** *** From a backend name to a readable name and back *)

(** One character of a backend name through [getReadableDiseaseName]'s
    formatting: it is no dash, and lower-casing gives the character back,
    the underscore as a space. *)
Lemma nameChar_formatted (c : ascii) (afterWord : bool) :
  isNameChar c = true ->
  (if JsText.isWordChar (if Ascii.eqb c "_" then " "%char else c) && negb afterWord
   then JsText.upperAscii (if Ascii.eqb c "_" then " "%char else c)
   else (if Ascii.eqb c "_" then " "%char else c)) ≠ "-"%char
  /\ JsString.lowerAscii
       (if JsText.isWordChar (if Ascii.eqb c "_" then " "%char else c) && negb afterWord
        then JsText.upperAscii (if Ascii.eqb c "_" then " "%char else c)
        else (if Ascii.eqb c "_" then " "%char else c))
     = (if Ascii.eqb c "_" then " "%char else c)
  /\ (Ascii.eqb c "_" = false -> JsString.isWhiteSpace c = false).
Proof.
  destruct c as [[] [] [] [] [] [] [] []], afterWord; intros H;
    try discriminate H; (split; [discriminate | split; reflexivity]).
Qed.

Lemma formatBackendName_chars (name : string) (afterUnderscore afterWord : bool) :
  backendNameShape afterUnderscore name = true ->
  Forall (fun c => c ≠ "-"%char)
         (chars (JsText.capitalizeWords afterWord (JsText.replaceUnderscores name)))
  /\ JsString.toLowerCase
       (JsText.capitalizeWords afterWord (JsText.replaceUnderscores name))
     = JsText.replaceUnderscores name
  /\ JsText.replaceSpaceRuns afterUnderscore (JsText.replaceUnderscores name) = name.
Proof.
  revert afterUnderscore afterWord.
  induction name as [|c name IH]; intros afterUnderscore afterWord Hshape.
  - by repeat split.
  - cbn [backendNameShape] in Hshape.
    apply andb_true_iff in Hshape as [Hshape Hrest].
    apply andb_true_iff in Hshape as [Hc Hrun].
    destruct (nameChar_formatted c afterWord Hc) as (Hdash & Hlow & Hws).
    destruct (IH (Ascii.eqb c "_")
                 (JsText.isWordChar (if Ascii.eqb c "_" then " "%char else c))
                 Hrest)
      as (IH1 & IH2 & IH3).
    cbn [JsText.replaceUnderscores JsText.capitalizeWords JsString.toLowerCase
         JsText.replaceSpaceRuns].
    split; [|split].
    + rewrite chars_String. by constructor.
    + by rewrite Hlow, IH2.
    + destruct (Ascii.eqb c "_") eqn:Hu.
      * apply Ascii.eqb_eq in Hu as ->.
        destruct afterUnderscore; [discriminate Hrun|].
        cbn. by rewrite IH3.
      * rewrite (Hws eq_refl). by rewrite IH3.
Qed.

Lemma split_without_dash (s : string) :
  Forall (fun c => c ≠ "-"%char) (chars s) ->
  JsText.split " - " s = [s].
Proof.
  intros H. unfold JsText.split.
  assert (Hgo : JsText.splitFrom " - " 0 s = (s, [])); [|by rewrite Hgo].
  induction s as [|c s IH]; [reflexivity|].
  rewrite chars_String in H. apply Forall_cons in H as [Hc Hs].
  cbn [JsText.splitFrom].
  assert (Hpre : String.prefix " - " (String c s) = false).
  { cbn [String.prefix]. destruct (ascii_dec " " c); [|reflexivity].
    destruct s as [|d s']; [reflexivity|].
    rewrite chars_String in Hs. apply Forall_cons in Hs as [Hd _].
    cbn [String.prefix]. destruct (ascii_dec "-" d); [congruence | reflexivity]. }
  rewrite Hpre, (IH Hs). reflexivity.
Qed.

(** The readable name of a backend name, given back to
    [extractDiseaseFromLabel], is the backend name again: for the names of
    the table and for every other name of lower-case letters, digits and
    single underscores. *)
Theorem readable_name_round_trip (name : string) :
  backendNameShape false name = true ->
  extractDiseaseFromLabel (getReadableDiseaseName name) = name.
Proof.
  intros Hshape. unfold getReadableDiseaseName.
  destruct (mapBackendToLocal name) as [m|] eqn:Hback.
  - apply mapBackendToLocal_Some in Hback as [Hin Hname].
    unfold extractDiseaseFromLabel.
    by rewrite (proj2 (mapLocalToBackend_Some (localLabel m) m) (conj Hin eq_refl)).
  - destruct (formatBackendName_chars name false false Hshape)
      as (Hdash & Hlow & Hruns).
    fold (formatBackendName name) in Hdash, Hlow.
    unfold extractDiseaseFromLabel.
    destruct (mapLocalToBackend (formatBackendName name)) as [m|] eqn:Hlook.
    + exfalso. apply mapLocalToBackend_Some in Hlook as [Hin Hl].
      assert (Hall : forallb
                (fun r => existsb (fun c => bool_decide (c = "-"%char))
                                  (chars (localLabel r)))
                DISEASE_MAPPINGS = true) by (vm_compute; reflexivity).
      pose proof (table_forall _ Hall m Hin) as H. cbn beta in H.
      apply existsb_exists in H as (c & Hc & Heq).
      apply bool_decide_eq_true in Heq. rewrite Hl in Hc.
      rewrite Forall_forall in Hdash.
      by apply (Hdash c); [apply list_elem_of_In|].
    + unfold parseDiseaseFromLabel. rewrite (split_without_dash _ Hdash).
      unfold slug. by rewrite Hlow, Hruns.
Qed.

Lemma readable_name_round_trip_witness :
  extractDiseaseFromLabel (getReadableDiseaseName "stem_borer_2") = "stem_borer_2".
Proof. apply readable_name_round_trip. reflexivity. Defined.

(** Two underscores in a row do not come back. *)
Example readable_name_double_underscore :
  getReadableDiseaseName "leaf__rust" = "Leaf  Rust"
  /\ extractDiseaseFromLabel "Leaf  Rust" = "leaf_rust".
Proof. split; vm_compute; reflexivity. Qed.

(** *** Healthy labels *)

(** A label is reported healthy exactly when it is one of the table's labels
    and the disease name sent to the backend for it is "healthy". A label
    the table does not have is not, though its parsed name may be
    "healthy". *)
Theorem isHealthyPrediction_iff (label : string) :
  isHealthyPrediction label = true
  <-> isValidLocalLabel label = true
      /\ extractDiseaseFromLabel label = "healthy".
Proof.
  unfold isHealthyPrediction, isValidLocalLabel, extractDiseaseFromLabel.
  fold (mapLocalToBackend label).
  destruct (mapLocalToBackend label) as [m|] eqn:Hlook.
  - apply mapLocalToBackend_Some in Hlook as [Hin _].
    assert (Hall : forallb
              (fun r => eqb (isHealthy r)
                            (bool_decide (backendDiseaseName r = "healthy")))
              DISEASE_MAPPINGS = true) by (vm_compute; reflexivity).
    pose proof (table_forall _ Hall m Hin) as H. cbn beta in H.
    apply eqb_prop in H. rewrite orb_false_r, H. split.
    + intros Hh. apply bool_decide_eq_true in Hh.
      split; [|exact Hh]. apply bool_decide_eq_true. by exists m.
    + intros [_ Hh]. by apply bool_decide_eq_true.
  - split; [discriminate|]. intros [Hv _].
    apply bool_decide_eq_true in Hv. by destruct Hv.
Qed.

Example isHealthyPrediction_unknown_crop :
  extractDiseaseFromLabel "Banana - Healthy" = "healthy"
  /\ isHealthyPrediction "Banana - Healthy" = false.
Proof. split; vm_compute; reflexivity. Qed.

(** *** The crops of the table *)

Lemma getSupportedCropTypes_fold (table : list DiseaseMapping)
    (seen : list CropType) :
  NoDup seen ->
  NoDup (foldl (fun cropTypes mapping =>
                  if bool_decide (cropType mapping ∈ cropTypes) then cropTypes
                  else cropTypes ++ [cropType mapping]) seen table)
  /\ (forall crop,
         crop ∈ foldl (fun cropTypes mapping =>
                         if bool_decide (cropType mapping ∈ cropTypes)
                         then cropTypes
                         else cropTypes ++ [cropType mapping]) seen table
         <-> crop ∈ seen \/ exists m, m ∈ table /\ cropType m = crop).
Proof.
  revert seen. induction table as [|m table IH]; intros seen Hnd.
  - cbn. split; [exact Hnd|]. intros crop. split; [by left|].
    intros [H|(m & Hm & _)]; [exact H | by apply elem_of_nil in Hm].
  - cbn [foldl]. case_bool_decide as Hin.
    + destruct (IH seen Hnd) as [Hnd' Hmem]. split; [exact Hnd'|].
      intros crop. rewrite Hmem. split.
      * intros [H|(r & Hr & Hc)]; [by left|]. right. exists r.
        split; [by right | exact Hc].
      * intros [H|(r & Hr & Hc)]; [by left|].
        apply elem_of_cons in Hr as [->|Hr]; [left; by rewrite <- Hc|].
        right. by exists r.
    + assert (Hnd2 : NoDup (seen ++ [cropType m])).
      { apply NoDup_app. split; [exact Hnd|]. split; [|apply NoDup_singleton].
        intros x Hx Hx'. apply list_elem_of_singleton in Hx'. by subst. }
      destruct (IH _ Hnd2) as [Hnd' Hmem]. split; [exact Hnd'|].
      intros crop. rewrite Hmem, elem_of_app, list_elem_of_singleton. split.
      * intros [[H|H]|(r & Hr & Hc)]; [by left | |].
        -- right. exists m. split; [left | by symmetry].
        -- right. exists r. split; [by right | exact Hc].
      * intros [H|(r & Hr & Hc)]; [left; by left|].
        apply elem_of_cons in Hr as [->|Hr]; [left; right; by symmetry|].
        right. by exists r.
Qed.

Lemma filter_crop_cons_other (m : DiseaseMapping) (table : list DiseaseMapping)
    (crops : list CropType) :
  cropType m ∉ crops ->
  map (getDiseasesForCrop (m :: table)) crops = map (getDiseasesForCrop table) crops.
Proof.
  intros Hnot. apply map_ext_in. intros crop Hcrop.
  unfold getDiseasesForCrop. cbn [List.filter].
  rewrite bool_decide_eq_false_2; [reflexivity|].
  intros Heq. apply Hnot. rewrite Heq. by apply list_elem_of_In.
Qed.

Lemma diseases_by_crop_cons (m : DiseaseMapping) (table : list DiseaseMapping)
    (crops : list CropType) :
  NoDup crops ->
  cropType m ∈ crops ->
  concat (map (getDiseasesForCrop (m :: table)) crops)
  ≡ₚ m :: concat (map (getDiseasesForCrop table) crops).
Proof.
  induction crops as [|crop crops IH]; intros Hnd Hin;
    [by apply elem_of_nil in Hin|].
  apply NoDup_cons in Hnd as [Hnotin Hnd].
  cbn [map concat].
  destruct (decide (cropType m = crop)) as [Heq|Hne].
  - rewrite filter_crop_cons_other by (by rewrite Heq).
    unfold getDiseasesForCrop at 1. cbn [List.filter].
    by rewrite (bool_decide_eq_true_2 _ Heq).
  - apply elem_of_cons in Hin as [Hin|Hin]; [done|].
    rewrite (IH Hnd Hin).
    unfold getDiseasesForCrop at 1. cbn [List.filter].
    rewrite (bool_decide_eq_false_2 _ Hne).
    by rewrite Permutation_middle.
Qed.

(** Whatever the table: [getSupportedCropTypes] lists each crop of the table
    once and no other, and the lists that [getDiseasesForCrop] gives for
    these crops hold, together, every record of the table exactly once. *)
Theorem crops_partition_the_table (table : list DiseaseMapping) :
  NoDup (getSupportedCropTypes table)
  /\ (forall crop,
         crop ∈ getSupportedCropTypes table
         <-> exists m, m ∈ table /\ cropType m = crop)
  /\ concat (map (getDiseasesForCrop table) (getSupportedCropTypes table))
     ≡ₚ table.
Proof.
  destruct (getSupportedCropTypes_fold table [] (NoDup_nil_2 (A:=CropType))) as [Hnd Hmem].
  fold (getSupportedCropTypes table) in Hnd, Hmem.
  assert (Hmem' : forall crop,
             crop ∈ getSupportedCropTypes table
             <-> exists m, m ∈ table /\ cropType m = crop).
  { intros crop. rewrite Hmem. split; [|by right].
    intros [H|H]; [by apply elem_of_nil in H | exact H]. }
  split; [exact Hnd|]. split; [exact Hmem'|].
  assert (Hgen : forall crops sub,
             NoDup crops ->
             (forall m, m ∈ sub -> cropType m ∈ crops) ->
             concat (map (getDiseasesForCrop sub) crops) ≡ₚ sub).
  { intros crops sub Hndc. induction sub as [|m sub IH]; intros Hcov.
    - clear Hcov. induction crops as [|c crops IHc]; [reflexivity|].
      apply NoDup_cons in Hndc as [_ Hndc]. cbn. by apply IHc.
    - rewrite diseases_by_crop_cons; [|exact Hndc|apply Hcov; left].
      constructor. apply IH. intros r Hr. apply Hcov. by right. }
  apply Hgen; [exact Hnd|]. intros m Hm. apply Hmem'. by exists m.
Qed.

Example crops_of_the_shipped_table :
  getSupportedCropTypes DISEASE_MAPPINGS = [CASHEW; CASSAVA; MAIZE; TOMATO]
  /\ map (fun crop => length (getDiseasesForCrop DISEASE_MAPPINGS crop))
         (getSupportedCropTypes DISEASE_MAPPINGS) = [5; 5; 7; 5].
Proof. split; vm_compute; reflexivity. Qed.

(** ** The validation script *)

Lemma validateBackendFormat_errors (table : list DiseaseMapping) :
  errors (validateBackendFormat table)
  = map (fun disease => "Missing mapping for expected backend disease: " +:+ disease)
        (List.filter
           (fun disease =>
              negb (bool_decide (disease ∈ map backendDiseaseName table)))
           expectedBackendDiseases)
    ++ map (fun m => "Unexpected backend disease name: " +:+ backendDiseaseName m)
           (List.filter
              (fun m => negb (bool_decide
                                (backendDiseaseName m ∈ expectedBackendDiseases)))
              table).
Proof.
  unfold validateBackendFormat. cbn [errors].
  rewrite (foldl_push
             (fun m => bool_decide (backendDiseaseName m ∈ expectedBackendDiseases))
             (fun m => "Unexpected backend disease name: " +:+ backendDiseaseName m)).
  rewrite (foldl_push
             (fun disease =>
                bool_decide
                  (disease ∈ (list_to_set (map backendDiseaseName table)
                              : gset string)))
             (fun disease =>
                "Missing mapping for expected backend disease: " +:+ disease)).
  cbn [app]. f_equal. f_equal. apply filter_ext. intros disease. f_equal.
  apply bool_decide_ext. apply elem_of_list_to_set.
Qed.

Lemma validateBackendFormat_iff (table : list DiseaseMapping) :
  validateBackendFormat table = mkValidation true []
  <-> (forall disease, disease ∈ expectedBackendDiseases ->
                       disease ∈ map backendDiseaseName table)
      /\ (forall m, m ∈ table -> backendDiseaseName m ∈ expectedBackendDiseases).
Proof.
  pose proof (validateBackendFormat_errors table) as Herr.
  unfold validateBackendFormat in *. cbn [errors] in Herr.
  rewrite validation_true_nil, Herr. split.
  - intros H. apply app_eq_nil in H as [H1 H2].
    apply map_eq_nil in H1. apply map_eq_nil in H2.
    rewrite filter_nil_iff in H1. rewrite filter_nil_iff in H2. split.
    + intros disease Hd. specialize (H1 disease Hd).
      apply negb_false_iff in H1. by apply bool_decide_eq_true in H1.
    + intros m Hm. specialize (H2 m Hm).
      apply negb_false_iff in H2. by apply bool_decide_eq_true in H2.
  - intros [H1 H2].
    assert (Hf1 : List.filter
              (fun disease =>
                 negb (bool_decide (disease ∈ map backendDiseaseName table)))
              expectedBackendDiseases = []).
    { apply filter_nil_iff. intros disease Hd. apply negb_false_iff.
      apply bool_decide_eq_true. by apply H1. }
    assert (Hf2 : List.filter
              (fun m => negb (bool_decide
                                (backendDiseaseName m ∈ expectedBackendDiseases)))
              table = []).
    { apply filter_nil_iff. intros m Hm. apply negb_false_iff.
      apply bool_decide_eq_true. by apply H2. }
    by rewrite Hf1, Hf2.
Qed.

(** [validateBackendFormat] passes exactly when the backend names of the
    table are the expected ones: each expected name in the table, each name
    of the table expected. *)
Theorem validateBackendFormat_valid (table : list DiseaseMapping) :
  validateBackendFormat table = mkValidation true []
  <-> (forall disease, disease ∈ expectedBackendDiseases ->
                       disease ∈ map backendDiseaseName table)
      /\ (forall m, m ∈ table -> backendDiseaseName m ∈ expectedBackendDiseases).
Proof. apply validateBackendFormat_iff. Qed.

Example validateBackendFormat_shipped :
  validateBackendFormat DISEASE_MAPPINGS = mkValidation true []
  /\ validateBackendFormat oneRecordTable
     = mkValidation false
         (map (fun d => "Missing mapping for expected backend disease: " +:+ d)
              (List.filter (fun d => negb (String.eqb d "anthracnose"))
                           expectedBackendDiseases)).
Proof. split; vm_compute; reflexivity. Qed.

Lemma validateMappings_valid (table : list DiseaseMapping) :
  validateMappings table = mkValidation true []
  <-> NoDup (map localLabel table)
      /\ NoDup (map backendDiseaseName table)
      /\ Forall (fun m => cropMismatch m = false) table.
Proof.
  pose proof (validateMappings_errors table) as Herr.
  unfold validateMappings in *. cbn [errors] in Herr.
  rewrite validation_true_nil, Herr.
  apply (violationsFrom_nil table []); cbn; apply NoDup_nil_2.
Qed.

Lemma valid_true_nil (r : ValidationResult) :
  valid r = (length (errors r) =? 0) -> valid r = true -> r = mkValidation true [].
Proof.
  destruct r as [v es]. cbn. intros H ->. symmetry in H.
  apply Nat.eqb_eq in H. by destruct es.
Qed.

Lemma NoDup_subset_length {A} (l k : list A) :
  NoDup l -> (forall x, x ∈ l -> x ∈ k) -> length l <= length k.
Proof. intros Hnd Hsub. apply submseteq_length. by apply NoDup_submseteq. Qed.

(** No table passes the three validations of [runValidation] at once when
    the model has more than 18 labels, all different: the expected backend
    names are 18 different names, [validateMappings] lets each be used once,
    and [validateModelCoverage] wants a record for every label. The model has
    22 labels. *)
Theorem runValidation_never_all_valid (readableLabels : list string)
    (table : list DiseaseMapping) :
  NoDup readableLabels ->
  18 < length readableLabels ->
  runValidationAllValid readableLabels table = false.
Proof.
  intros Hnd Hlen. unfold runValidationAllValid.
  destruct (valid (validateMappings table)) eqn:H1; [|reflexivity].
  destruct (valid (validateModelCoverage readableLabels table)) eqn:H2;
    [|reflexivity].
  destruct (valid (validateBackendFormat table)) eqn:H3; [|reflexivity].
  exfalso.
  apply valid_true_nil in H1; [|reflexivity].
  apply valid_true_nil in H2; [|reflexivity].
  apply valid_true_nil in H3; [|reflexivity].
  apply validateMappings_valid in H1 as (_ & Hnames & _).
  apply validateModelCoverage_valid in H2 as [Hcover _].
  apply validateBackendFormat_iff in H3 as [_ Hexpected].
  assert (Hlabels : length readableLabels <= length table).
  { rewrite <- (length_map localLabel table).
    by apply NoDup_subset_length. }
  assert (Hnames18 : length table <= 18).
  { rewrite <- (length_map backendDiseaseName table).
    change 18 with (length (remove_dups expectedBackendDiseases)).
    apply NoDup_subset_length; [exact Hnames|].
    intros name Hname. apply elem_of_remove_dups.
    apply list_elem_of_fmap in Hname as (m & -> & Hm). by apply Hexpected. }
  lia.
Qed.

(** The shipped table against the 22 labels it maps. *)
Lemma runValidation_never_all_valid_witness :
  runValidationAllValid labels22 DISEASE_MAPPINGS = false.
Proof.
  apply runValidation_never_all_valid.
  - apply DISEASE_MAPPINGS_localLabel_NoDup.
  - cbn. lia.
Defined.

(** ** Model utilities *)

(** After [disposeTensors] none of the tensors that were given is live, the
    other tensors are live as before, and a [null] among the arguments is
    passed over. *)
Theorem disposeTensors_live (tensors : list (option Tensor)) (w : World) :
  exists w',
    disposeTensors tensors w = (Ok tt, w')
    /\ (forall i, i ∈ live w' <-> i ∈ live w /\ i ∉ givenIds tensors)
    /\ nextId w' = nextId w.
Proof.
  revert w. induction tensors as [|tensor rest IH]; intros w.
  - exists w. split; [reflexivity|]. split; [|reflexivity].
    intros i. cbn. split; [intros H; split; [exact H | apply not_elem_of_nil]|].
    by intros [H _].
  - cbn [disposeTensors]. unfold bind at 1. destruct tensor as [t|].
    + unfold dispose at 1.
      match goal with |- context [disposeTensors rest ?w0] =>
        destruct (IH w0) as (w' & Hrun & Hlive & Hnext)
      end.
      exists w'. split; [exact Hrun|]. split; [|exact Hnext].
      intros i. rewrite Hlive. cbn.
      rewrite elem_of_difference, elem_of_singleton, not_elem_of_cons. tauto.
    + unfold ret at 1. destruct (IH w) as (w' & Hrun & Hlive & Hnext).
      exists w'. split; [exact Hrun|]. by split.
Qed.

Example disposeTensors_skips_null :
  elements (live (snd (disposeTensors
                         [Some (mkTensor 1 [2] []); None; Some (mkTensor 3 [2] [])]
                         (mkWorld 5 {[0; 1; 2; 3; 4]} [] initialHook))))
  ≡ₚ [0; 2; 4].
Proof.
  vm_compute.
  match goal with |- ?l ≡ₚ _ => apply (bool_decide_unpack (l ≡ₚ [0; 2; 4])) end.
  vm_compute. exact I.
Qed.


Lemma smoke_verdict (out : list JsNumber) (w : World) :
  (if length out <? expectedClasses then fun w0 : World => (Ok false, w0)
   else if negb (forallb isValidNumber out) then fun w0 : World => (Ok false, w0)
   else fun w0 : World => (Ok true, w0)) w
  = (Ok (negb (length out <? expectedClasses) && forallb isValidNumber out), w).
Proof.
  destruct (length out <? expectedClasses); [reflexivity|].
  by destruct (forallb isValidNumber out).
Qed.

Lemma trimmed_verdict (vs : list JsNumber) :
  ((negb (length (take expectedClasses vs) <? expectedClasses)
    && forallb isValidNumber (take expectedClasses vs))
   = ((22 <=? length vs) && forallb isValidNumber (take 22 vs)))
  /\ ((expectedClasses <? length vs) = false ->
      (negb (length vs <? expectedClasses) && forallb isValidNumber vs)
      = ((22 <=? length vs) && forallb isValidNumber (take 22 vs))).
Proof.
  unfold expectedClasses. split.
  - f_equal. rewrite length_take.
    destruct (22 <=? length vs) eqn:Hle.
    + apply Nat.leb_le in Hle. apply negb_true_iff, Nat.ltb_ge. lia.
    + apply Nat.leb_gt in Hle. apply negb_false_iff, Nat.ltb_lt. lia.
  - intros Hgt. apply Nat.ltb_ge in Hgt. rewrite take_ge by lia. f_equal.
    destruct (22 <=? length vs) eqn:Hle.
    + apply Nat.leb_le in Hle. apply negb_true_iff, Nat.ltb_ge. lia.
    + apply Nat.leb_gt in Hle. apply negb_false_iff, Nat.ltb_lt. lia.
Qed.

(** The verdict of the smoke test. When the forward pass throws, the test
    passes, and the random input stays live. When it returns, the test
    passes exactly when there are at least 22 values and the first 22 are
    finite numbers, and in a world whose coming identities are unused every
    tensor the test made is disposed: the live tensors are those from
    before. *)
Theorem testModelPrediction_verdict (E : Env) (m : GraphModel) (w : World) :
  (forall e,
      forward m (mkTensor (nextId w) [1; 224; 224; 3] (randomNormalValues E))
      = inl e ->
      exists w',
        testModelPrediction E m w = (Ok true, w')
        /\ (forall i, i ∈ live w' <-> i = nextId w \/ i ∈ live w))
  /\ (forall sh vs,
         forward m (mkTensor (nextId w) [1; 224; 224; 3] (randomNormalValues E))
         = inr (sh, vs) ->
         exists w',
           testModelPrediction E m w
           = (Ok ((22 <=? length vs) && forallb isValidNumber (take 22 vs)), w')
           /\ (freshIds w -> forall i, i ∈ live w' <-> i ∈ live w)).
Proof.
  split.
  - intros e He.
    cbv [testModelPrediction tryCatch bind newTensor predict fromResult ret
         throw squeeze dispose].
    rewrite He. eexists. split; [reflexivity|]. intros i. cbn.
    rewrite elem_of_union, elem_of_singleton. tauto.
  - intros sh vs Hf. destruct (trimmed_verdict vs) as [Htrim Hkeep].
    cbv [testModelPrediction tryCatch bind newTensor predict fromResult ret
         throw squeeze dispose].
    rewrite Hf. cbn [fst snd tid shape values nextId live trace hook].
    destruct (2 <? length sh);
      cbn [fst snd tid shape values nextId live trace hook];
      destruct (expectedClasses <? length vs) eqn:Hgt;
      cbn [fst snd tid shape values nextId live trace hook];
      rewrite ?(bool_decide_eq_true_2 (S (S (nextId w)) ≠ S (nextId w))) by lia;
      rewrite ?(bool_decide_eq_false_2 (S (nextId w) ≠ S (nextId w))) by tauto;
      cbn [fst snd tid shape values nextId live trace hook];
      rewrite smoke_verdict; rewrite ?Htrim, ?(Hkeep eq_refl);
      (eexists; split; [reflexivity|]);
      intros Hfresh i; cbn [live];
      rewrite !elem_of_difference, ?elem_of_union, !elem_of_singleton,
        ?elem_of_union, ?elem_of_singleton;
      (split; [tauto|]); intros Hi; pose proof (Hfresh i Hi);
      repeat split; solve [lia | tauto].
Qed.

(** A model of 10 output values, and one whose output holds a value that is
    not a number. *)
Lemma testModelPrediction_verdict_witness :
  fst (testModelPrediction (envBlackPhoto model10) model10 world0) = Ok false
  /\ fst (testModelPrediction (envBlackPhoto model22) model22 world0) = Ok true.
Proof.
  split.
  - destruct (proj2 (testModelPrediction_verdict (envBlackPhoto model10) model10 world0)
                [1; 10] (repeat (Fin (1 # 10)) 10) eq_refl) as (w' & H & _).
    by rewrite H.
  - destruct (proj2 (testModelPrediction_verdict (envBlackPhoto model22) model22 world0)
                [1; 22] scores22 eq_refl) as (w' & H & _).
    by rewrite H.
Defined.

(** ** The detection service *)

Lemma tryCatch_of_returning {A} (m : M A) (handler : JsError -> M A) (w : World) :
  (exists a w', m w = (Ok a, w')) -> tryCatch m handler w = m w.
Proof. intros (a & w' & H). unfold tryCatch. by rewrite H. Qed.

Lemma last_cons_default {A} (l : list A) (a d d' : A) :
  List.last (a :: l) d = List.last (a :: l) d'.
Proof.
  revert a. induction l as [|b l IH]; intros a; [reflexivity|].
  change (List.last (b :: l) d = List.last (b :: l) d'). apply IH.
Qed.

Lemma service_after_updates (m0 : option GraphModel)
    (updates : list (option GraphModel)) :
  foldl updateModel (newCropDetectionService m0) updates
  = mkService (List.last updates m0) (notNull (List.last updates m0)).
Proof.
  revert m0. induction updates as [|m updates IH]; intros m0; [reflexivity|].
  cbn [foldl]. change (updateModel (newCropDetectionService m0) m)
    with (newCropDetectionService m).
  rewrite IH. destruct updates as [|m' updates]; [reflexivity|].
  change (List.last (m :: m' :: updates) m0) with (List.last (m' :: updates) m0).
  by rewrite (last_cons_default updates m' m m0).
Qed.

(** A service made with a model and given any number of other models since
    answers [detectCrop] as [predictImage] answers with the model it was
    given last, and says it is ready exactly when it was given one; without
    a model it returns [null] and touches nothing. Its own [catch] is never
    reached. *)
Theorem detectCrop_is_predictImage (E : Env) (readableLabels : list string)
    (m0 : option GraphModel) (updates : list (option GraphModel))
    (imageUri : string) (w : World) :
  detectCrop E readableLabels
             (foldl updateModel (newCropDetectionService m0) updates) imageUri w
  = predictImage E readableLabels imageUri (List.last updates m0) w
  /\ isModelReady (foldl updateModel (newCropDetectionService m0) updates)
     = notNull (List.last updates m0)
  /\ (List.last updates m0 = None ->
      detectCrop E readableLabels
                 (foldl updateModel (newCropDetectionService m0) updates)
                 imageUri w
      = (Ok None, w)).
Proof.
  rewrite service_after_updates. unfold detectCrop, isModelReady.
  cbn [serviceModel serviceIsReady].
  destruct (List.last updates m0) as [m|]; cbn [notNull negb orb].
  - split; [|split; [reflexivity | discriminate]].
    apply tryCatch_of_returning, predictImage_returns.
  - by repeat split.
Qed.

Lemma detectCrop_is_predictImage_witness :
  detectCrop (envBlackPhoto model22) labels22
             (foldl updateModel (newCropDetectionService None) [Some model22])
             "file:///photo.jpg" world0
  = predictImage (envBlackPhoto model22) labels22 "file:///photo.jpg"
                 (Some model22) world0.
Proof.
  exact (proj1 (detectCrop_is_predictImage (envBlackPhoto model22) labels22
                  None [Some model22] "file:///photo.jpg" world0)).
Defined.

(** ** The network status *)

Lemma onNetInfoEvent_status (state : NetInfoState) :
  status (onNetInfoEvent state)
  = match netIsConnected state, netIsInternetReachable state with
    | Some true, Some true =>
        if bool_decide (netType state ∈ ["wifi"; "ethernet"; "cellular"])
        then online else poor
    | Some true, _ => poor
    | _, _ => offline
    end.
Proof.
  destruct state as [[[|]|] [[|]|] t]; try reflexivity.
  unfold onNetInfoEvent. cbn [netIsConnected netIsInternetReachable netType
                               default status andb].
  destruct (decide (t = "wifi")) as [->|H1]; [reflexivity|].
  destruct (decide (t = "ethernet")) as [->|H2]; [reflexivity|].
  destruct (decide (t = "cellular")) as [->|H3]; [reflexivity|].
  rewrite !bool_decide_eq_false_2; [reflexivity | | assumption..].
  intros Hin. repeat (apply elem_of_cons in Hin as [Hin|Hin]; [done|]).
  by apply elem_of_nil in Hin.
Qed.

Lemma onNetInfoFetch_status (state : NetInfoState) :
  status (onNetInfoFetch state)
  = match netIsConnected state, netIsInternetReachable state with
    | Some true, Some true => online
    | Some true, _ => poor
    | _, _ => offline
    end.
Proof. by destruct state as [[[|]|] [[|]|] t]. Qed.

(** Both handlers say offline exactly when the device is not connected, and
    online only when it is connected and the internet is reachable. They say
    the same, but for a connected device with reachable internet on a
    connection that is neither wifi, ethernet nor cellular: the listener says
    poor and the initial fetch says online. Of the three flags of the hook
    exactly one is set. *)
Theorem network_status_of_the_two_handlers (state : NetInfoState) :
  (status (onNetInfoEvent state) = offline <-> netIsConnected state ≠ Some true)
  /\ (status (onNetInfoFetch state) = offline <-> netIsConnected state ≠ Some true)
  /\ (status (onNetInfoEvent state) = online ->
      netIsConnected state = Some true
      /\ netIsInternetReachable state = Some true)
  /\ (status (onNetInfoEvent state) ≠ status (onNetInfoFetch state)
      <-> netIsConnected state = Some true
          /\ netIsInternetReachable state = Some true
          /\ (netType state ∉ ["wifi"; "ethernet"; "cellular"]))
  /\ (status (onNetInfoEvent state) ≠ status (onNetInfoFetch state) ->
      status (onNetInfoEvent state) = poor
      /\ status (onNetInfoFetch state) = online)
  /\ (forall s : NetworkState,
         (isOnline s, isOffline s, isPoorConnection s) = (true, false, false)
         \/ (isOnline s, isOffline s, isPoorConnection s) = (false, true, false)
         \/ (isOnline s, isOffline s, isPoorConnection s) = (false, false, true)).
Proof.
  rewrite onNetInfoEvent_status, onNetInfoFetch_status.
  assert (Hflags : forall s : NetworkState,
             (isOnline s, isOffline s, isPoorConnection s) = (true, false, false)
             \/ (isOnline s, isOffline s, isPoorConnection s) = (false, true, false)
             \/ (isOnline s, isOffline s, isPoorConnection s) = (false, false, true)).
  { intros [c r t []]; cbn; tauto. }
  destruct (netIsConnected state) as [[|]|],
           (netIsInternetReachable state) as [[|]|];
    try case_bool_decide;
    repeat split; try done; try congruence; try tauto;
    try (intros H; contradict H; congruence);
    try (intros (_ & _ & H); contradict H; assumption);
    try (intros (? & _); congruence);
    try (intros (_ & ? & _); congruence).
Qed.

Lemma network_status_of_the_two_handlers_witness :
  status (onNetInfoEvent (mkNetInfoState (Some true) (Some true) "vpn")) = poor
  /\ status (onNetInfoFetch (mkNetInfoState (Some true) (Some true) "vpn")) = online.
Proof.
  apply (proj1 (proj2 (proj2 (proj2 (proj2
           (network_status_of_the_two_handlers
              (mkNetInfoState (Some true) (Some true) "vpn"))))))).
  discriminate.
Defined.

(** ** The result of [predictImage] *)

Lemma reconcileScores_Ok (prediction processed : Tensor)
    (scores : list JsNumber) (w w' : World) :
  reconcileScores prediction w = (Ok (processed, scores), w') ->
  length scores = 22 /\ scores = take 22 (values prediction).
Proof.
  intros H.
  destruct (Nat.lt_trichotomy (length (values prediction)) expectedClasses)
    as [Hlt|[Heq|Hgt]].
  - destruct (reconcileScores_shorter prediction w Hlt) as (w1 & H1). congruence.
  - rewrite (reconcileScores_exact prediction w Heq) in H.
    injection H as _ <- _. split; [exact Heq|].
    rewrite take_ge; [reflexivity|]. unfold expectedClasses in Heq. lia.
  - destruct (reconcileScores_longer prediction w Hgt) as (p & w1 & H1 & _).
    rewrite H1 in H. injection H as _ <- _. split; [|reflexivity].
    rewrite length_take. unfold expectedClasses in *. lia.
Qed.

(** What a result of [predictImage] is made of. *)
Lemma predictImage_Some (E : Env) (labels : list string) (uri : string)
    (model : option GraphModel) (w w' : World) (r : PredictionResult) :
  predictImage E labels uri model w = (Ok (Some r), w') ->
  length (allScores r) = 22
  /\ topPredictions r
     = take 3 (sortByConfidence
                 (imap (fun index score =>
                          mkPrediction (labels !! index) score index)
                       (allScores r)))
  /\ confidence r = classIndex r ≫= (fun i => allScores r !! i)
  /\ label r = classIndex r ≫= (fun i => labels !! i).
Proof.
  unfold predictImage. destruct model as [m|]; [|discriminate].
  unfold tryCatch. unfold bind at 1.
  destruct (imageToTensor E uri w) as [[tensor|e] w1]; [|discriminate].
  unfold bind at 1.
  destruct (predict m tensor w1) as [[prediction|e] w2]; [|discriminate].
  unfold bind at 1.
  destruct (reconcileScores prediction w2) as [[[processed scores]|e] w3] eqn:Hrec;
    [|discriminate].
  apply reconcileScores_Ok in Hrec as [Hlen _].
  unfold bind at 1. cbn [fst snd].
  destruct (argMaxLast processed w3) as [[am|e] w4]; [|discriminate].
  unfold bind, dispose, ret.
  destruct (bool_decide (tid processed ≠ tid prediction));
    intros H; injection H as <- _; by repeat split.
Qed.

(** *** The order of the top predictions *)

Lemma insertByConfidence_perm (p : Prediction) (l : list Prediction) :
  insertByConfidence p l ≡ₚ p :: l.
Proof.
  induction l as [|q l IH]; [reflexivity|]. cbn.
  destruct (gtb (pConfidence q) (pConfidence p)); [|reflexivity].
  rewrite IH. apply perm_swap.
Qed.

Lemma sortByConfidence_perm (ps : list Prediction) : sortByConfidence ps ≡ₚ ps.
Proof.
  induction ps as [|p ps IH]; [reflexivity|].
  cbn. rewrite insertByConfidence_perm. by constructor.
Qed.

Lemma gtb_asym (x y : JsNumber) :
  isValidNumber x = true -> isValidNumber y = true ->
  gtb x y = true -> gtb y x = false.
Proof.
  destruct x as [a| | |], y as [b| | |]; try discriminate. intros _ _ H.
  apply gtb_Fin in H. apply gtb_Fin_false. by apply Qlt_le_weak.
Qed.

Lemma gtb_le_trans (x y z : JsNumber) :
  isValidNumber x = true -> isValidNumber y = true -> isValidNumber z = true ->
  gtb x y = false -> gtb y z = false -> gtb x z = false.
Proof.
  destruct x as [a| | |], y as [b| | |], z as [c| | |]; try discriminate.
  intros _ _ _ H1 H2. apply gtb_Fin_false in H1. apply gtb_Fin_false in H2.
  apply gtb_Fin_false. by apply (Qle_trans a b c).
Qed.

Lemma insertByConfidence_sorted (p : Prediction) (l : list Prediction) :
  isValidNumber (pConfidence p) = true ->
  Forall (fun q => isValidNumber (pConfidence q) = true) l ->
  StronglySorted notAbove l ->
  StronglySorted notAbove (insertByConfidence p l).
Proof.
  intros Hp Hfin Hsorted. induction Hsorted as [|q l Hsorted IH Hq]; cbn.
  - repeat constructor.
  - apply Forall_cons in Hfin as [Hqf Hfin].
    destruct (gtb (pConfidence q) (pConfidence p)) eqn:Hgt.
    + constructor; [by apply IH|].
      rewrite insertByConfidence_perm. constructor; [|exact Hq].
      by apply gtb_asym.
    + constructor; [by constructor|]. constructor; [exact Hgt|].
      rewrite Forall_forall in Hq, Hfin |- *. intros x Hx.
      apply (gtb_le_trans _ (pConfidence q)); auto. by apply Hq.
Qed.

Lemma sortByConfidence_sorted (ps : list Prediction) :
  Forall (fun q => isValidNumber (pConfidence q) = true) ps ->
  StronglySorted notAbove (sortByConfidence ps).
Proof.
  induction ps as [|p ps IH]; intros Hfin; [constructor|].
  apply Forall_cons in Hfin as [Hp Hfin]. cbn.
  apply insertByConfidence_sorted; [exact Hp | | by apply IH].
  by rewrite sortByConfidence_perm.
Qed.

(** The first of the sorted predictions is the first, in the order of the
    classes, of those with the greatest confidence. *)
Lemma sortByConfidence_head (ps : list Prediction) :
  Forall (fun q => isValidNumber (pConfidence q) = true) ps ->
  ps ≠ [] ->
  exists i h,
    ps !! i = Some h
    /\ head (sortByConfidence ps) = Some h
    /\ (forall x, x ∈ ps -> gtb (pConfidence x) (pConfidence h) = false)
    /\ (forall k x, k < i -> ps !! k = Some x ->
                    gtb (pConfidence h) (pConfidence x) = true).
Proof.
  induction ps as [|p ps IH]; intros Hfin Hne; [done|].
  apply Forall_cons in Hfin as [Hp Hfin].
  destruct ps as [|p' ps'].
  - exists 0, p. repeat split; [|intros k x Hk; lia].
    intros x Hx. apply list_elem_of_singleton in Hx as ->. apply gtb_irrefl.
  - destruct (IH Hfin ltac:(done)) as (i & h & Hi & Hhead & Hmax & Hfirst).
    assert (Hh : isValidNumber (pConfidence h) = true).
    { rewrite Forall_forall in Hfin. apply Hfin.
      apply list_elem_of_lookup. by exists i. }
    change (sortByConfidence (p :: p' :: ps'))
      with (insertByConfidence p (sortByConfidence (p' :: ps'))).
    destruct (sortByConfidence (p' :: ps')) as [|h0 tl] eqn:Hsort;
      [discriminate Hhead|].
    injection Hhead as ->. cbn [insertByConfidence].
    destruct (gtb (pConfidence h) (pConfidence p)) eqn:Hgt.
    + exists (S i), h. split; [exact Hi|]. split; [reflexivity|]. split.
      * intros x Hx. apply elem_of_cons in Hx as [->|Hx];
          [by apply gtb_asym | by apply Hmax].
      * intros [|k] x Hk Hx; [by injection Hx as <-|].
        apply (Hfirst k x); [lia | exact Hx].
    + exists 0, p. split; [reflexivity|]. split; [reflexivity|]. split.
      * intros x Hx. apply elem_of_cons in Hx as [->|Hx]; [apply gtb_irrefl|].
        apply (gtb_le_trans _ (pConfidence h)); auto.
        rewrite Forall_forall in Hfin. by apply Hfin.
      * intros k x Hk. lia.
Qed.

Lemma ranked_lookup (labels : list string) (scores : list JsNumber) (i : nat)
    (p : Prediction) :
  imap (fun index score => mkPrediction (labels !! index) score index) scores !! i
  = Some p ->
  exists s, scores !! i = Some s /\ p = mkPrediction (labels !! i) s i.
Proof.
  rewrite list_lookup_imap. destruct (scores !! i) as [s|]; [|discriminate].
  cbn. intros H. injection H as <-. by exists s.
Qed.

Lemma ranked_elem (labels : list string) (scores : list JsNumber)
    (p : Prediction) :
  p ∈ imap (fun index score => mkPrediction (labels !! index) score index) scores
  <-> exists i s, scores !! i = Some s /\ p = mkPrediction (labels !! i) s i.
Proof.
  rewrite list_elem_of_lookup. split.
  - intros [i Hi]. exists i. by apply ranked_lookup.
  - intros (i & s & Hs & ->). exists i. by rewrite list_lookup_imap, Hs.
Qed.

Lemma ranked_finite (labels : list string) (scores : list JsNumber) :
  Forall (fun s => isValidNumber s = true) scores ->
  Forall (fun q => isValidNumber (pConfidence q) = true)
         (imap (fun index score => mkPrediction (labels !! index) score index)
               scores).
Proof.
  intros Hfin. apply Forall_forall. intros p Hp.
  apply ranked_elem in Hp as (i & s & Hs & ->). cbn.
  rewrite Forall_forall in Hfin. apply Hfin.
  apply list_elem_of_lookup. by exists i.
Qed.

Lemma ranked_NoDup (labels : list string) (scores : list JsNumber) :
  NoDup (map pClassIndex
             (imap (fun index score => mkPrediction (labels !! index) score index)
                   scores)).
Proof.
  apply NoDup_alt. intros i j k Hi Hj.
  rewrite list_lookup_fmap in Hi, Hj.
  destruct (imap _ scores !! i) as [p|] eqn:Hp; [|discriminate].
  destruct (imap _ scores !! j) as [q|] eqn:Hq; [|discriminate].
  apply ranked_lookup in Hp as (s & _ & ->).
  apply ranked_lookup in Hq as (t & _ & ->).
  cbn in Hi, Hj. congruence.
Qed.

(** Every result of [predictImage] holds 22 scores and three top
    predictions of three different classes below 22, each with the score and
    the label of its class; the result's own confidence and label are read
    at its class index. *)
Theorem predictImage_result_invariants (E : Env) (labels : list string)
    (uri : string) (model : option GraphModel) (w w' : World)
    (r : PredictionResult) :
  predictImage E labels uri model w = (Ok (Some r), w') ->
  length (allScores r) = 22
  /\ length (topPredictions r) = 3
  /\ Forall (fun p => pClassIndex p < 22
                      /\ allScores r !! pClassIndex p = Some (pConfidence p)
                      /\ pLabel p = labels !! pClassIndex p)
            (topPredictions r)
  /\ NoDup (map pClassIndex (topPredictions r))
  /\ confidence r = classIndex r ≫= (fun i => allScores r !! i)
  /\ label r = classIndex r ≫= (fun i => labels !! i).
Proof.
  intros H. apply predictImage_Some in H as (Hlen & Htop & Hconf & Hlabel).
  split; [exact Hlen|]. rewrite Htop.
  split; [|split; [|split; [|by split]]].
  - rewrite length_take, (Permutation_length (sortByConfidence_perm _)),
      length_imap, Hlen. reflexivity.
  - apply Forall_forall. intros p Hp.
    pose proof (elem_of_sublist _ _ _ Hp (sublist_take _ _)) as Hp'.
    clear Hp. rename Hp' into Hp.
    rewrite sortByConfidence_perm in Hp.
    apply ranked_elem in Hp as (i & s & Hs & ->). cbn.
    split; [|by split]. apply lookup_lt_Some in Hs. lia.
  - apply (sublist_NoDup _ (map pClassIndex (sortByConfidence
             (imap (fun index score => mkPrediction (labels !! index) score index)
                   (allScores r))))).
    + rewrite (sortByConfidence_perm _). apply ranked_NoDup.
    + apply (fmap_sublist pClassIndex), sublist_take.
Qed.

Lemma predictImage_result_invariants_witness :
  exists r,
    fst (predictImage (envBlackPhoto model30) labels22 "file:///photo.jpg"
                      (Some model30) world0) = Ok (Some r)
    /\ length (allScores r) = 22
    /\ length (topPredictions r) = 3.
Proof.
  assert (Hsome : exists r w',
             predictImage (envBlackPhoto model30) labels22 "file:///photo.jpg"
                          (Some model30) world0 = (Ok (Some r), w'))
    by (vm_compute; eexists _, _; reflexivity).
  destruct Hsome as (r & w' & H). exists r. rewrite H.
  split; [reflexivity|].
  destruct (predictImage_result_invariants _ _ _ _ _ _ _ H) as (H1 & H2 & _).
  by split.
Defined.

Lemma firstMax_unique (scores : list JsNumber) (i a : nat) (si sa : JsNumber) :
  scores !! i = Some si -> scores !! a = Some sa ->
  (forall x, x ∈ scores -> gtb x si = false) ->
  (forall k x, k < i -> scores !! k = Some x -> gtb si x = true) ->
  (forall x, x ∈ scores -> gtb x sa = false) ->
  (forall k x, k < a -> scores !! k = Some x -> gtb sa x = true) ->
  i = a.
Proof.
  intros Hi Ha Hmaxi Hfirsti Hmaxa Hfirsta.
  destruct (Nat.lt_trichotomy i a) as [Hlt|[Heq|Hgt]]; [|exact Heq|].
  - pose proof (Hfirsta i si Hlt Hi) as H1.
    assert (H2 : gtb sa si = false)
      by (apply Hmaxi, list_elem_of_lookup; by exists a).
    congruence.
  - pose proof (Hfirsti a sa Hgt Ha) as H1.
    assert (H2 : gtb si sa = false)
      by (apply Hmaxa, list_elem_of_lookup; by exists i).
    congruence.
Qed.

(** When the 22 scores are finite numbers, the top predictions are in
    descending order of confidence, the first of them is the arg-max of the
    scores (of equal scores the class that comes first), and no class left
    out of them has a score above one of theirs. *)
Theorem topPredictions_ranking (E : Env) (labels : list string) (uri : string)
    (model : option GraphModel) (w w' : World) (r : PredictionResult) :
  predictImage E labels uri model w = (Ok (Some r), w') ->
  Forall (fun s => isValidNumber s = true) (allScores r) ->
  StronglySorted notAbove (topPredictions r)
  /\ (exists s,
         allScores r !! argMaxRow (allScores r) = Some s
         /\ head (topPredictions r)
            = Some (mkPrediction (labels !! argMaxRow (allScores r)) s
                                 (argMaxRow (allScores r))))
  /\ (forall k s t,
         allScores r !! k = Some s ->
         t ∈ topPredictions r ->
         k ∉ map pClassIndex (topPredictions r) ->
         gtb s (pConfidence t) = false).
Proof.
  intros H Hfin. apply predictImage_Some in H as (Hlen & Htop & _ & _).
  set (ps := imap (fun index score => mkPrediction (labels !! index) score index)
                  (allScores r)) in *.
  assert (Hpsfin : Forall (fun q => isValidNumber (pConfidence q) = true) ps)
    by (by apply ranked_finite).
  pose proof (sortByConfidence_sorted ps Hpsfin) as Hsorted.
  rewrite <- (take_drop 3 (sortByConfidence ps)) in Hsorted.
  rewrite Htop. split; [by apply StronglySorted_app_1_l in Hsorted|]. split.
  - assert (Hne : ps ≠ []).
    { intros Hnil. apply (f_equal length) in Hnil.
      unfold ps in Hnil. rewrite length_imap, Hlen in Hnil. discriminate. }
    destruct (sortByConfidence_head ps Hpsfin Hne)
      as (i & h & Hi & Hhead & Hmax & Hfirst).
    apply ranked_lookup in Hi as (si & Hsi & ->). cbn in Hmax, Hfirst.
    assert (Hne' : allScores r ≠ []) by (intros Hnil; by rewrite Hnil in Hlen).
    destruct (argMaxRow_first_max (allScores r) Hfin Hne')
      as (sa & Hsa & Hmaxa & Hfirsta).
    assert (Heq : i = argMaxRow (allScores r)).
    { apply (firstMax_unique (allScores r) i _ si sa); auto.
      - intros x Hx. apply list_elem_of_lookup in Hx as [k Hk].
        apply (Hmax (mkPrediction (labels !! k) x k)).
        apply ranked_elem. by exists k, x.
      - intros k x Hk Hx.
        apply (Hfirst k (mkPrediction (labels !! k) x k) Hk).
        unfold ps. by rewrite list_lookup_imap, Hx. }
    subst i. exists si. split; [exact Hsi|].
    destruct (sortByConfidence ps) as [|h0 tl]; [discriminate Hhead|].
    exact Hhead.
  - intros k s t Hs Ht Hk.
    assert (Hin : mkPrediction (labels !! k) s k ∈ sortByConfidence ps).
    { rewrite sortByConfidence_perm. apply ranked_elem. by exists k, s. }
    rewrite <- (take_drop 3 (sortByConfidence ps)) in Hin.
    apply elem_of_app in Hin as [Hin|Hin].
    + exfalso. apply Hk. apply list_elem_of_fmap.
      by exists (mkPrediction (labels !! k) s k).
    + apply (StronglySorted_app_1_elem_of _ _ _ _ _ Hsorted Ht Hin).
Qed.

Lemma topPredictions_ranking_witness :
  exists r,
    fst (predictImage (envBlackPhoto model30) labels22 "file:///photo.jpg"
                      (Some model30) world0) = Ok (Some r)
    /\ exists s,
         allScores r !! argMaxRow (allScores r) = Some s
         /\ head (topPredictions r)
            = Some (mkPrediction (labels22 !! argMaxRow (allScores r)) s
                                 (argMaxRow (allScores r))).
Proof.
  assert (Hsome : exists r w',
             predictImage (envBlackPhoto model30) labels22 "file:///photo.jpg"
                          (Some model30) world0 = (Ok (Some r), w')
             /\ forallb isValidNumber (allScores r) = true)
    by (vm_compute; eexists _, _; split; reflexivity).
  destruct Hsome as (r & w' & H & Hfin). exists r. rewrite H.
  split; [reflexivity|].
  apply (topPredictions_ranking _ _ _ _ _ _ _ H).
  apply Forall_forall. intros x Hx. rewrite forallb_forall in Hfin.
  apply Hfin. by apply list_elem_of_In.
Defined.

(** *** The primary path when an attempt succeeds, and the two guards *)

(** When the manipulator fails [failed] times, fewer than three, and then
    answers, the call makes [failed + 1] attempts with a wait of 200 ms times
    the number of the attempt after each failure, never reads the file
    directly, and goes on with the answer alone; an answer without base64
    data makes the call throw, with no fall back to the direct read. *)
Theorem imageToTensor_first_success (E : Env) (uri : string) (w : World)
    (failed : nat) (resized : option (option string)) :
  JsString.trimIsEmpty uri = false ->
  isPermanentFile uri = false ->
  failed < maxRetries ->
  (forall k, 1 <= k <= failed -> exists e, manipulateAsync E uri k = inl e) ->
  manipulateAsync E uri (failed + 1) = inr resized ->
  imageToTensor E uri w
  = afterManipulate E resized
      (withEvents w (cameraDelay uri ++ failedAttempts uri failed 0
                     ++ [EvManipulate uri (failed + 1)]))
  /\ countEvents isManipulate (newEvents w (snd (imageToTensor E uri w)))
     = failed + 1
  /\ countEvents isReadFile (newEvents w (snd (imageToTensor E uri w))) = 0
  /\ ((forall base64, resized = Some (Some base64) -> base64 = "") ->
      fst (imageToTensor E uri w) = Throw NoBase64).
Proof.
  intros Hblank Hperm Hlt Hfail Hok.
  assert (Heq : imageToTensor E uri w
                = afterManipulate E resized
                    (withEvents w (cameraDelay uri ++ failedAttempts uri failed 0
                                   ++ [EvManipulate uri (failed + 1)]))).
  { rewrite (imageToTensor_primary E uri w Hblank Hperm).
    unfold bind at 1.
    rewrite (retryLoop_first_success E uri resized failed maxRetries 0);
      [| lia | lia | intros k Hk; apply Hfail; lia | exact Hok].
    by rewrite withEvents_app. }
  split; [exact Heq|]. rewrite Heq.
  destruct (afterManipulate_within E resized
              (withEvents w (cameraDelay uri ++ failedAttempts uri failed 0
                             ++ [EvManipulate uri (failed + 1)])))
    as (added & Htrace & Hm & Hr).
  cbn [withEvents trace] in Htrace. rewrite <- app_assoc in Htrace.
  rewrite (newEvents_app _ _ _ Htrace).
  destruct (countEvents_failedAttempts uri failed 0) as [Hfm Hfr].
  assert (Hcm : countEvents isManipulate (cameraDelay uri) = 0
                /\ countEvents isReadFile (cameraDelay uri) = 0)
    by (unfold cameraDelay; by destruct (JsString.includes uri "Camera/")).
  destruct Hcm as [Hcm Hcr].
  rewrite !countEvents_app, Hfm, Hfr, Hcm, Hcr.
  split; [cbn; lia|]. split; [cbn; lia|].
  intros Hnone. unfold afterManipulate.
  destruct resized as [[base64|]|]; [|reflexivity..].
  rewrite (Hnone base64 eq_refl). reflexivity.
Qed.

(** A photo resized at the second attempt: two attempts with a wait of 200
    milliseconds between them, no direct read, and the tensor of the decoded
    image. *)
Lemma imageToTensor_first_success_witness :
  trace (snd (imageToTensor envSecondAttempt "file:///cache/photo.jpg" world0))
  = [ EvManipulate "file:///cache/photo.jpg" 1; EvSleep 200;
      EvManipulate "file:///cache/photo.jpg" 2;
      EvTensor OpDecodeJpeg 0; EvTensor OpExpandDims 1; EvTensor OpDiv 2;
      EvDispose 0 ].
Proof.
  rewrite (proj1 (imageToTensor_first_success envSecondAttempt
                    "file:///cache/photo.jpg" world0 1
                    (Some (Some "/9j/4AAQSkZJRg=="))
                    eq_refl eq_refl ltac:(unfold maxRetries; lia)
                    ltac:(intros k Hk; assert (k = 1) as -> by lia;
                          eexists; reflexivity)
                    eq_refl)).
  reflexivity.
Defined.

(** A blank URI makes the call throw before anything is done; a file of the
    application's document directory goes straight to the direct read, also
    when its path names the camera folder: no wait, no attempt of the
    manipulator, one read of the file. *)
Theorem imageToTensor_guards (E : Env) (uri : string) (w : World) :
  (JsString.trimIsEmpty uri = true ->
   imageToTensor E uri w = (Throw EmptyUri, w))
  /\ (JsString.trimIsEmpty uri = false -> isPermanentFile uri = true ->
      imageToTensor E uri w = processImageAlternative E uri w
      /\ exists rest,
           newEvents w (snd (imageToTensor E uri w)) = EvReadFile uri :: rest
           /\ countEvents isManipulate rest = 0
           /\ countEvents isReadFile rest = 0).
Proof.
  split.
  - intros Hblank. unfold imageToTensor. rewrite tryCatch_rethrow.
    by rewrite Hblank.
  - intros Hblank Hperm.
    assert (Heq : imageToTensor E uri w = processImageAlternative E uri w).
    { unfold imageToTensor. rewrite tryCatch_rethrow.
      by rewrite Hblank, Hperm. }
    split; [exact Heq|]. rewrite Heq.
    destruct (processImageAlternative_reads_once E uri w)
      as (rest & Htrace & Hm & Hr).
    exists rest. by rewrite (newEvents_app _ _ _ Htrace).
Qed.

(** A photo of the document directory kept under a camera folder, and the
    blank URI. *)
Lemma imageToTensor_guards_witness :
  imageToTensor envMissingFile "   " world0 = (Throw EmptyUri, world0)
  /\ imageToTensor envRedFile "file:///Camera/files/crop_image_3.jpg" world0
     = processImageAlternative envRedFile
         "file:///Camera/files/crop_image_3.jpg" world0.
Proof.
  split.
  - apply (proj1 (imageToTensor_guards envMissingFile "   " world0)).
    reflexivity.
  - apply (proj2 (imageToTensor_guards envRedFile
                    "file:///Camera/files/crop_image_3.jpg" world0));
      reflexivity.
Defined.
